(** * Family home schedule: the interval-editing core

    A shallow embedding of the schedule store ([core/data_manager.py]), of
    the cyclic colour allocator ([FamilyscheduleApp/core/color_manager.py])
    and of the commit step of the two chart canvases
    ([gui/chart_canvas.py] and [FamilyscheduleApp/gui/chart_canvas.py]),
    followed by the properties of the specification that were checked
    against them.

    Conventions of the embedding.
    - A Python [int] is a [Z]; a Python [float] holding an hour value is a
      rational [Q] (every finite double is one, and [round] is exact on it).
    - A schedule is a tuple [(start, end)] of integers, as every caller in
      the repository builds it ([int(...)] in the forms, [round(...)] at the
      end of a drag).
    - A [dict] keyed by member names is a [gmap string _]; a [set] of
      colours is a [gset string].
    - A method that mutates [self] takes the object and returns the new
      one; an exception is an explicit result. *)

From Stdlib Require Import ZArith QArith Qround Lqa Ascii DecimalString DecimalZ.
From stdpp Require Import gmap strings list sorting.

Local Open Scope Z_scope.

(** ** Python exceptions that the modelled code can raise *)

Inductive exn : Type :=
  | ValueError   (* list.remove(x): x not in list *)
  | IndexError.  (* list index out of range *)

#[global] Instance exn_eq_dec : EqDecision exn.
Proof. solve_decision. Defined.

(** * core/color_manager.py *)

Module ColorManager.

Definition CHART_COLORS : list string :=
  [ "skyblue"; "lightgreen"; "salmon"; "orchid"; "gold";
    "lightcoral"; "lightsteelblue"; "palegreen"; "sandybrown"; "plum" ]%string.

(** The object has one attribute.  It is only ever assigned [0], a
    successor inside the scan loop or a remainder modulo the palette
    size, so a natural number holds it. *)
Record t : Type := mk { current_color_index : nat }.

(** [__init__] *)
Definition init : t := {| current_color_index := 0 |}.

(** [get_next_color]: [None] stands for the [IndexError] of
    [CHART_COLORS[self.current_color_index]]. *)
Definition get_next_color (cm : t) : option (string * t) :=
  match CHART_COLORS !! current_color_index cm with
  | None => None
  | Some color =>
      Some (color,
            {| current_color_index :=
                 ((current_color_index cm + 1) mod length CHART_COLORS)%nat |})
  end.

(** The condition of the [while] loop of
    [set_current_color_index_based_on_used_colors]:
    [index < len(CHART_COLORS) and CHART_COLORS[index] in used_colors]. *)
Definition scan_cond (used_colors : gset string) (index : nat) : bool :=
  if decide (index < length CHART_COLORS)%nat then
    match CHART_COLORS !! index with
    | Some color => bool_decide (color ∈ used_colors)
    | None => false
    end
  else false.

(** The loop itself, [index += 1] while the condition holds.  The fuel
    bounds the number of iterations; [scan_exits] below shows that the
    palette size is enough. *)
Fixpoint scan (fuel : nat) (used_colors : gset string) (index : nat) : nat :=
  match fuel with
  | O => index
  | S fuel' =>
      if scan_cond used_colors index
      then scan fuel' used_colors (S index)
      else index
  end.

Definition set_current_color_index_based_on_used_colors
    (used_colors : gset string) (cm : t) : t :=
  let index := scan (length CHART_COLORS) used_colors 0 in
  if decide (length CHART_COLORS ≤ index)%nat
  then {| current_color_index := 0 |}
  else {| current_color_index := index |}.

(** [n] successive calls of [get_next_color], with the colours they
    return in call order. *)
Fixpoint next_colors (n : nat) (cm : t) : option (list string * t) :=
  match n with
  | O => Some ([], cm)
  | S n' =>
      match get_next_color cm with
      | None => None
      | Some (color, cm') =>
          match next_colors n' cm' with
          | None => None
          | Some (colors, cm'') => Some (color :: colors, cm'')
          end
      end
  end.

(** The allocator invariant: the index points into the palette. *)
Definition valid (cm : t) : Prop :=
  (current_color_index cm < length CHART_COLORS)%nat.

End ColorManager.

(** * Python lists of schedules *)

Module PyList.

(** Tuple comparison [a < b] as Python evaluates it: the first position
    where the two tuples differ decides. *)
Definition tuple_lt (a b : Z * Z) : bool :=
  if negb (a.1 =? b.1) then a.1 <? b.1
  else if negb (a.2 =? b.2) then a.2 <? b.2
  else false.

(** The order behind [tuple_lt]: lexicographic on start, then end. *)
Definition tuple_le (a b : Z * Z) : Prop :=
  a.1 < b.1 \/ (a.1 = b.1 /\ a.2 <= b.2).

(** [list.sort()] is stable and compares with [<] only.  One element is
    placed behind every element that is not greater than it. *)
Fixpoint insert_sorted (x : Z * Z) (l : list (Z * Z)) : list (Z * Z) :=
  match l with
  | [] => [x]
  | y :: l' => if tuple_lt x y then x :: y :: l' else y :: insert_sorted x l'
  end.

Definition sort (l : list (Z * Z)) : list (Z * Z) :=
  foldl (fun acc x => insert_sorted x acc) [] l.

(** The position an index denotes: negative indices count from the end,
    and [None] is an index out of range. *)
Definition position {A : Type} (l : list A) (i : Z) : option nat :=
  let n := Z.of_nat (length l) in
  if 0 <=? i then (if i <? n then Some (Z.to_nat i) else None)
  else (if 0 <=? n + i then Some (Z.to_nat (n + i)) else None).

(** [l[i]] *)
Definition getitem {A : Type} (l : list A) (i : Z) : exn + A :=
  match position l i with
  | None => inl IndexError
  | Some n =>
      match l !! n with
      | Some x => inr x
      | None => inl IndexError
      end
  end.

(** [del l[i]] *)
Definition delitem {A : Type} (l : list A) (i : Z) : exn + list A :=
  match position l i with
  | None => inl IndexError
  | Some n => inr (delete n l)
  end.

(** [l.remove(x)]: the first element equal to [x] goes; [ValueError] when
    there is none. *)
Fixpoint remove (x : Z * Z) (l : list (Z * Z)) : exn + list (Z * Z) :=
  match l with
  | [] => inl ValueError
  | y :: l' =>
      if decide (y = x) then inr l'
      else match remove x l' with
           | inl e => inl e
           | inr l'' => inr (y :: l'')
           end
  end.

End PyList.

(** * core/data_manager.py *)

Module DataManager.

(** One entry of [family_members]: [{'schedules': [...], 'color': ...}]. *)
Record member : Type := mk_member {
  schedules : list (Z * Z);
  color : string
}.

(** The object: the dictionary of members, the colour allocator, and the
    snapshots that [save_data] has written to [DATA_FILE], newest first. *)
Record t : Type := mk {
  family_members : gmap string member;
  color_manager : ColorManager.t;
  saved : list (gmap string member)
}.

(** The failures the methods report as [(False, message)], one per
    message, and the results of a call. *)
Inductive failure : Type :=
  | DuplicateMember
  | MemberNotFound
  | IntervalNotFound               (* the [except ValueError] message *)
  | UnexpectedError (e : exn).     (* the [except Exception as e] message *)

Inductive outcome : Type :=
  | Success
  | Failure (f : failure)
  | Raised (e : exn).              (* an exception that leaves the method *)

(** A store with no member, a fresh allocator and nothing written:
    [__init__] when there is no data file. *)
Definition init : t :=
  {| family_members := ∅; color_manager := ColorManager.init; saved := [] |}.

(** [save_data]: the current dictionary is written out. *)
Definition save_data (dm : t) : t :=
  {| family_members := family_members dm;
     color_manager := color_manager dm;
     saved := family_members dm :: saved dm |}.

(** [self.family_members[name]['schedules'] = l] or an in-place change of
    that list: the member keeps its colour. *)
Definition set_schedules (name : string) (m : member) (l : list (Z * Z)) (dm : t) : t :=
  {| family_members :=
       <[name := {| schedules := l; color := color m |}]> (family_members dm);
     color_manager := color_manager dm;
     saved := saved dm |}.

Definition add_member (name : string) (dm : t) : outcome * t :=
  match family_members dm !! name with
  | Some _ => (Failure DuplicateMember, dm)
  | None =>
      match ColorManager.get_next_color (color_manager dm) with
      | None => (Raised IndexError, dm)
      | Some (c, cm') =>
          (Success,
           save_data
             {| family_members :=
                  <[name := {| schedules := []; color := c |}]> (family_members dm);
                color_manager := cm';
                saved := saved dm |})
      end
  end.

Definition delete_member (name : string) (dm : t) : outcome * t :=
  match family_members dm !! name with
  | Some _ =>
      (Success,
       save_data
         {| family_members := delete name (family_members dm);
            color_manager := color_manager dm;
            saved := saved dm |})
  | None => (Failure MemberNotFound, dm)
  end.

Definition add_schedule (member_name : string) (start_hour end_hour : Z) (dm : t)
    : outcome * t :=
  match family_members dm !! member_name with
  | None => (Failure MemberNotFound, dm)
  | Some m =>
      (Success,
       save_data
         (set_schedules member_name m
            (PyList.sort (schedules m ++ [(start_hour, end_hour)])) dm))
  end.

Definition clear_member_schedules (member_name : string) (dm : t) : outcome * t :=
  match family_members dm !! member_name with
  | None => (Failure MemberNotFound, dm)
  | Some m => (Success, save_data (set_schedules member_name m [] dm))
  end.

(** The removal step that [update_schedule] and [delete_schedule] share,
    word for word:
<<
    if index < len(schedules) and schedules[index] == schedule:
        del schedules[index]
    else:
        schedules.remove(schedule)
>>
    The test has no lower bound, so a negative index reaches
    [schedules[index]]. *)
Definition remove_at_or_by_value
    (l : list (Z * Z)) (schedule : Z * Z) (index : Z) : exn + list (Z * Z) :=
  if index <? Z.of_nat (length l) then
    match PyList.getitem l index with
    | inl e => inl e
    | inr s =>
        if decide (s = schedule) then PyList.delitem l index
        else PyList.remove schedule l
    end
  else PyList.remove schedule l.

(** The two [except] clauses of [update_schedule] and [delete_schedule]. *)
Definition handler (e : exn) : outcome :=
  match e with
  | ValueError => Failure IntervalNotFound
  | _ => Failure (UnexpectedError e)
  end.

Definition update_schedule
    (member_name : string) (old_schedule : Z * Z) (old_index : Z)
    (new_schedule : Z * Z) (dm : t) : outcome * t :=
  match family_members dm !! member_name with
  | None => (Failure MemberNotFound, dm)
  | Some m =>
      match remove_at_or_by_value (schedules m) old_schedule old_index with
      | inl e => (handler e, dm)
      | inr l =>
          (Success,
           save_data
             (set_schedules member_name m (PyList.sort (l ++ [new_schedule])) dm))
      end
  end.

Definition delete_schedule
    (member_name : string) (schedule_to_delete : Z * Z) (original_index : Z)
    (dm : t) : outcome * t :=
  match family_members dm !! member_name with
  | None => (Failure MemberNotFound, dm)
  | Some m =>
      match remove_at_or_by_value (schedules m) schedule_to_delete original_index with
      | inl e => (handler e, dm)
      | inr l => (Success, save_data (set_schedules member_name m l dm))
      end
  end.

(** The six mutating operations, as data, and their interpretation. *)
Inductive mutation : Type :=
  | AddMember (name : string)
  | DeleteMember (name : string)
  | AddSchedule (name : string) (start_hour end_hour : Z)
  | ClearSchedules (name : string)
  | UpdateSchedule (name : string) (old_schedule : Z * Z) (old_index : Z)
                   (new_schedule : Z * Z)
  | DeleteSchedule (name : string) (schedule : Z * Z) (index : Z).

Definition run (op : mutation) (dm : t) : outcome * t :=
  match op with
  | AddMember name => add_member name dm
  | DeleteMember name => delete_member name dm
  | AddSchedule name s e => add_schedule name s e dm
  | ClearSchedules name => clear_member_schedules name dm
  | UpdateSchedule name old i new => update_schedule name old i new dm
  | DeleteSchedule name s i => delete_schedule name s i dm
  end.

(** The member an operation addresses. *)
Definition target (op : mutation) : string :=
  match op with
  | AddMember name | DeleteMember name | AddSchedule name _ _
  | ClearSchedules name | UpdateSchedule name _ _ _ | DeleteSchedule name _ _ => name
  end.

(** A sequence of operations, each one applied to the store its
    predecessor left. *)
Fixpoint run_all (ops : list mutation) (dm : t) : t :=
  match ops with
  | [] => dm
  | op :: ops' => run_all ops' (run op dm).2
  end.

(** Sorted ascending by start. *)
Definition sorted_by_start (l : list (Z * Z)) : Prop :=
  Sorted (fun a b => a.1 <= b.1) l.

Definition all_sorted (dm : t) : Prop :=
  forall name m, family_members dm !! name = Some m -> sorted_by_start (schedules m).

End DataManager.

(** * The chart canvases *)

(** [round(x)] on a float: the nearest integer, a tie going to the even
    one. *)
Definition py_round (x : Q) : Z :=
  let f := Qfloor x in
  match Qcompare (x - inject_Z f) (1 # 2) with
  | Lt => f
  | Gt => f + 1
  | Eq => if Z.even f then f else f + 1
  end.

(** [drag_data["mode"]] of both canvases. *)
Inductive drag_mode : Type :=
  | move
  | resize_left
  | resize_right.

(** ** FamilyscheduleApp/gui/chart_canvas.py *)

Module FamilyscheduleApp.

(** What [drag_start] captures and the later handlers read.  The canvas is
    idle when [drag_data["item"]] is [None]: the state of the controller
    is an [option drag_data]. *)
Record drag_data : Type := mk_drag {
  mode : drag_mode;
  member_name : string;
  original_schedule : Z * Z;
  original_index : Z
}.

Definition snap_interval : Q := 1.

(** [round(h / snap_interval) * snap_interval].  With the interval 1.0 this
    is the integer [round(h)] held in a float, and the values computed from
    it below are sums and differences of integers, which double precision
    keeps exact: they are modelled in [Z]. *)
Definition snapped (hour_float : Q) : Z :=
  py_round (hour_float / snap_interval).

(** The ["move"] branch of [drag_motion], from the hour
    [new_start_hour_float] under the pointer to the hours the bar is
    redrawn at. *)
Definition drag_motion_move (new_start_hour_float : Q) (original_schedule : Z * Z)
    : Z * Z :=
  let new_start_hour_snapped := snapped new_start_hour_float in
  let duration := original_schedule.2 - original_schedule.1 in
  let new_start_hour_snapped := Z.max 0 new_start_hour_snapped in
  let new_end_hour_snapped := new_start_hour_snapped + duration in
  if 24 <? new_end_hour_snapped then
    let new_end_hour_snapped := 24 in
    let new_start_hour_snapped := new_end_hour_snapped - duration in
    if new_start_hour_snapped <? 0 then
      let new_start_hour_snapped := 0 in
      (new_start_hour_snapped, new_start_hour_snapped + duration)
    else (new_start_hour_snapped, new_end_hour_snapped)
  else (new_start_hour_snapped, new_end_hour_snapped).

(** The schedule [end_drag] commits, from the hours of the two edges of
    the bar when the button is released. *)
Definition committed (new_start_hour new_end_hour : Q) : Z * Z :=
  let new_start_hour := py_round new_start_hour in
  let new_end_hour := py_round new_end_hour in
  let new_start_hour := Z.max 0 new_start_hour in
  let new_end_hour := Z.min 24 new_end_hour in
  let new_end_hour :=
    if new_end_hour <=? new_start_hour then new_start_hour + 1 else new_end_hour in
  (new_start_hour, new_end_hour).

(** [end_drag]: the new controller state, the result of the store call if
    there was one, and the store. *)
Definition end_drag
    (drag : option drag_data) (new_start_hour new_end_hour : Q) (dm : DataManager.t)
    : option drag_data * option DataManager.outcome * DataManager.t :=
  match drag with
  | None => (None, None, dm)
  | Some d =>
      let new_schedule := committed new_start_hour new_end_hour in
      if decide (new_schedule = original_schedule d) then (None, None, dm)
      else
        let '(r, dm') :=
          DataManager.update_schedule
            (member_name d) (original_schedule d) (original_index d) new_schedule dm in
        (None, Some r, dm')
  end.

End FamilyscheduleApp.

(** ** gui/chart_canvas.py *)

Module Gui.

(** The controller is active when [drag_data["item"]] and
    [drag_data["mode"]] are both set. *)
Record drag_data : Type := mk_drag {
  mode : drag_mode;
  member_name : string;
  original_schedule : Z * Z;
  original_schedule_tuple_index : Z
}.

(** The schedule [end_drag] commits. *)
Definition committed (mode : drag_mode) (start_float end_float : Q) : Z * Z :=
  let new_start_hour := py_round start_float in
  let new_end_hour := py_round end_float in
  let new_start_hour := Z.max 0 new_start_hour in
  let new_end_hour := Z.min 24 new_end_hour in
  if new_start_hour >=? new_end_hour then
    let '(new_start_hour, new_end_hour) :=
      match mode with
      | resize_left => (new_end_hour - 1, new_end_hour)
      | _ => (new_start_hour, new_start_hour + 1)
      end in
    (Z.max 0 new_start_hour, Z.min 24 new_end_hour)
  else (new_start_hour, new_end_hour).

Definition end_drag
    (drag : option drag_data) (start_float end_float : Q) (dm : DataManager.t)
    : option drag_data * option DataManager.outcome * DataManager.t :=
  match drag with
  | None => (None, None, dm)
  | Some d =>
      let new_schedule := committed (mode d) start_float end_float in
      if decide (new_schedule = original_schedule d) then (None, None, dm)
      else
        let '(r, dm') :=
          DataManager.update_schedule
            (member_name d) (original_schedule d)
            (original_schedule_tuple_index d) new_schedule dm in
        (None, Some r, dm')
  end.

End Gui.

(** * Concrete stores used in the examples *)

Module Examples.

(** A store whose only member is Alice, with the given schedules. *)
Definition alice (l : list (Z * Z)) : DataManager.t :=
  {| DataManager.family_members :=
       {[ "Alice"%string :=
            {| DataManager.schedules := l; DataManager.color := "skyblue"%string |} ]};
     DataManager.color_manager := ColorManager.mk 1;
     DataManager.saved := [] |}.

End Examples.

(** * The rest of core/data_manager.py: loading *)

Module Loader.

Import DataManager.

(** One value of the parsed JSON object: what [data.get('schedules', [])]
    and [data.get('color')] read, [None] standing for a missing key (and,
    for the colour, for [null]). *)
Record entry : Type := mk_entry {
  entry_schedules : option (list (Z * Z));
  entry_color : option string
}.

(** What [load_data] finds: no file, a file [json.load] rejects, or the
    items of the parsed object in file order. *)
Inductive file : Type :=
  | Missing
  | Corrupt
  | Parsed (loaded_data : list (string * entry)).

(** The [for name, data in loaded_data.items()] loop.  The first component
    is [None] when [get_next_color] raised; the allocator is returned as
    the loop left it. *)
Fixpoint load_members
    (items : list (string * entry)) (family_members : gmap string member)
    (cm : ColorManager.t) (used_colors : gset string)
    : option (gmap string member * gset string) * ColorManager.t :=
  match items with
  | [] => (Some (family_members, used_colors), cm)
  | (name, data) :: items' =>
      let schedules_list := default [] (entry_schedules data) in
      let fresh :=
        match entry_color data with
        | None => true
        | Some color => negb (bool_decide (color ∈ ColorManager.CHART_COLORS))
        end in
      let chosen :=
        if fresh then ColorManager.get_next_color cm
        else match entry_color data with
             | Some color => Some (color, cm)
             | None => None
             end in
      match chosen with
      | None => (None, cm)
      | Some (color, cm') =>
          load_members items'
            (<[name := {| schedules := schedules_list; color := color |}]> family_members)
            cm' ({[ color ]} ∪ used_colors)
      end
  end.

(** [load_data].  Both [except] clauses end with an empty dictionary. *)
Definition load_data (f : file) (dm : t) : t :=
  match f with
  | Missing => dm
  | Corrupt =>
      {| family_members := ∅; color_manager := color_manager dm; saved := saved dm |}
  | Parsed loaded_data =>
      match load_members loaded_data ∅ (color_manager dm) ∅ with
      | (Some (fm, used_colors), cm) =>
          {| family_members := fm;
             color_manager :=
               ColorManager.set_current_color_index_based_on_used_colors used_colors cm;
             saved := saved dm |}
      | (None, cm) =>
          {| family_members := ∅; color_manager := cm; saved := saved dm |}
      end
  end.

(** [DataManager.__init__]: an empty dictionary, a fresh allocator, then
    [load_data]. *)
Definition startup (f : file) : t := load_data f init.

(** The items [json.load] returns for a file that [save_data] wrote from
    the dictionary [fm]: every member with its list and its colour. *)
Definition written (fm : gmap string member) : list (string * entry) :=
  (fun p : string * member =>
     (p.1, {| entry_schedules := Some (schedules p.2);
              entry_color := Some (color p.2) |})) <$> map_to_list fm.

(** The member an entry becomes when its colour needs no replacement. *)
Definition as_member (e : entry) : member :=
  {| schedules := default [] (entry_schedules e);
     color := default ""%string (entry_color e) |}.

End Loader.

(** * The forms: gui/app.py and the edit dialogs of the two canvases *)

Module Forms.

Import DataManager.

(** What a handler did: showed a warning without calling the store, or
    called it. *)
Inductive form_result : Type :=
  | Warned
  | Unchanged                      (* "the schedule was not changed" *)
  | Called (r : outcome).

(** The test of [set_schedule_gui] and of [on_ok] in gui/chart_canvas.py. *)
Definition valid_hours (start_hour end_hour : Z) : bool :=
  (0 <=? start_hour) && (start_hour <=? 23)
  && ((0 <=? end_hour) && (end_hour <=? 24))
  && (start_hour <? end_hour).

(** [ScheduleApp.set_schedule_gui]: the listbox selection, and what
    [int(...)] makes of the two entries ([None] for a [ValueError]). *)
Definition set_schedule_gui
    (selection : option string) (start_entry end_entry : option Z) (dm : t)
    : form_result * t :=
  match selection with
  | None => (Warned, dm)
  | Some name =>
      match start_entry, end_entry with
      | Some start_hour, Some end_hour =>
          if negb (valid_hours start_hour end_hour) then (Warned, dm)
          else
            let '(r, dm') := add_schedule name start_hour end_hour dm in
            (Called r, dm')
      | _, _ => (Warned, dm)
      end
  end.

(** [on_ok] of [edit_schedule_dialog] in gui/chart_canvas.py. *)
Definition gui_on_ok
    (member_name : string) (old_schedule : Z * Z) (original_index : Z)
    (start_entry end_entry : option Z) (dm : t) : form_result * t :=
  match start_entry, end_entry with
  | Some new_start, Some new_end =>
      if negb (valid_hours new_start new_end) then (Warned, dm)
      else if decide ((new_start, new_end) = old_schedule) then (Unchanged, dm)
      else
        let '(r, dm') :=
          update_schedule member_name old_schedule original_index
            (new_start, new_end) dm in
        (Called r, dm')
  | _, _ => (Warned, dm)
  end.

(** [on_ok] of [edit_schedule_dialog] in
    FamilyscheduleApp/gui/chart_canvas.py: two tests, and no comparison
    with the old schedule. *)
Definition familyschedule_on_ok
    (member_name : string) (old_schedule : Z * Z) (original_index : Z)
    (start_entry end_entry : option Z) (dm : t) : form_result * t :=
  match start_entry, end_entry with
  | Some new_start, Some new_end =>
      if negb ((0 <=? new_start) && (new_start <=? 23))
         || negb ((1 <=? new_end) && (new_end <=? 24))
      then (Warned, dm)
      else if new_start >=? new_end then (Warned, dm)
      else
        let '(r, dm') :=
          update_schedule member_name old_schedule original_index
            (new_start, new_end) dm in
        (Called r, dm')
  | _, _ => (Warned, dm)
  end.

(** [delete_schedule_from_chart] of both canvases, with the answer to the
    confirmation box. *)
Definition delete_schedule_from_chart
    (confirmed : bool) (member_name : string) (schedule_to_delete : Z * Z)
    (original_index : Z) (dm : t) : form_result * t :=
  if confirmed then
    let '(r, dm') := delete_schedule member_name schedule_to_delete original_index dm in
    (Called r, dm')
  else (Unchanged, dm).

(** A schedule inside the day, start before end. *)
Definition in_day (p : Z * Z) : Prop := 0 <= p.1 < p.2 /\ p.2 <= 24.

Definition all_in_day (dm : t) : Prop :=
  forall name m, family_members dm !! name = Some m -> Forall in_day (schedules m).

(** Every list sorted by start, then end: what [list.sort] establishes. *)
Definition all_lex_sorted (dm : t) : Prop :=
  forall name m,
    family_members dm !! name = Some m ->
    StronglySorted PyList.tuple_le (schedules m).

End Forms.

(** * What the handlers of FamilyscheduleApp capture from the store *)

Module Capture.

Import DataManager.

(** How [drag_start] ends once the tags are read: it returns without a
    drag, it raises [KeyError] on [family_members[member_name]], or it
    fills [drag_data]. *)
Inductive started : Type :=
  | NoDrag
  | KeyError
  | Drag (d : FamilyscheduleApp.drag_data).

(** Python truth of [member_name]: neither [None] nor the empty string. *)
Definition truthy (member_name : option string) : option string :=
  match member_name with
  | Some name => if decide (name = ""%string) then None else Some name
  | None => None
  end.

(** [drag_start] from the values read off the tags: the kind of item hit
    ([None] when it is neither a bar nor a handle), the member name and
    the schedule index (initially [None] and [-1]). *)
Definition drag_start
    (hit : option drag_mode) (member_name : option string) (schedule_index : Z)
    (dm : t) : started :=
  match hit with
  | None => NoDrag
  | Some mode =>
      match truthy member_name with
      | None => NoDrag
      | Some name =>
          if decide (schedule_index = -1) then NoDrag
          else
            match family_members dm !! name with
            | None => KeyError
            | Some m =>
                let original_schedules := schedules m in
                if negb ((0 <=? schedule_index)
                         && (schedule_index <? Z.of_nat (length original_schedules)))
                then NoDrag
                else
                  match original_schedules !! Z.to_nat schedule_index with
                  | None => NoDrag
                  | Some original_schedule =>
                      Drag {| FamilyscheduleApp.mode := mode;
                              FamilyscheduleApp.member_name := name;
                              FamilyscheduleApp.original_schedule := original_schedule;
                              FamilyscheduleApp.original_index := schedule_index |}
                  end
            end
      end
  end.

(** [show_context_menu] from the values read off the tags: the arguments
    the two menu commands are built with, if a menu is posted. *)
Definition show_context_menu
    (member_name : option string) (schedule_index : Z) (dm : t)
    : option (string * (Z * Z) * Z) :=
  match truthy member_name with
  | None => None
  | Some name =>
      if decide (schedule_index = -1) then None
      else
        let schedules_for_member :=
          match family_members dm !! name with
          | Some m => schedules m
          | None => []
          end in
        if (0 <=? schedule_index)
           && (schedule_index <? Z.of_nat (length schedules_for_member))
        then
          match schedules_for_member !! Z.to_nat schedule_index with
          | Some original_schedule => Some (name, original_schedule, schedule_index)
          | None => None
          end
        else None
  end.

End Capture.

(** * The tags of the canvas items *)

(** Both canvases keep the identity of a bar in the text of its tags and
    read it back with [split("_")], [startswith] and [int].  A string is
    its UTF-8 bytes; the underscore is one byte that occurs in no other
    character's encoding, so splitting bytes is splitting characters. *)

Module Tags.

Import DataManager.

(** [c in s] for a character. *)
Fixpoint occurs (c : Ascii.ascii) (s : string) : bool :=
  match s with
  | EmptyString => false
  | String a s' => if Ascii.eqb a c then true else occurs c s'
  end.

(** [s.split("_")]: every underscore separates, empty pieces are kept. *)
Fixpoint split (s : string) : list string :=
  match s with
  | EmptyString => [EmptyString]
  | String a s' =>
      if Ascii.eqb a "_"%char then EmptyString :: split s'
      else match split s' with
           | [] => [String a EmptyString]
           | piece :: pieces => String a piece :: pieces
           end
  end.

(** [s.startswith(p)] *)
Definition startswith (s p : string) : bool := String.prefix p s.

(** [str(n)], also what [f"{n}"] prints: decimal digits, a minus sign for
    a negative number. *)
Definition py_str (n : Z) : string := NilZero.string_of_int (Z.to_int n).

(** A parser of plain decimal numerals: one function that does what the
    properties below ask of the built-in [int], namely read back what
    [str] printed. *)
Definition decimal (s : string) : option Z :=
  Z.of_int <$> NilZero.int_of_string s.

(** ** FamilyscheduleApp/gui/chart_canvas.py *)

(** The tags [update_gantt_chart] gives a bar and its two handles. *)
Definition bar_tags (name : string) (schedule_index : Z) : list string :=
  [ "schedule_bar_" +:+ name +:+ "_" +:+ py_str schedule_index;
    "member_" +:+ name;
    "schedule_" +:+ py_str schedule_index ].



(** The local variables of [drag_start] while it reads the tags. *)
Record reading : Type := mk_reading {
  member_name : option string;
  schedule_index : Z;
  is_handle_left : bool;
  is_handle_right : bool;
  is_bar : bool
}.

Definition start : reading :=
  {| member_name := None; schedule_index := -1;
     is_handle_left := false; is_handle_right := false; is_bar := false |}.

(** The loop over the tags of the bar a handle belongs to.  [None] is the
    [ValueError] of [int]. *)
Fixpoint read_bar_of_handle
    (int : string -> option Z) (bar_tags : list string) (r : reading)
    : option reading :=
  match bar_tags with
  | [] => Some r
  | bar_tag :: rest =>
      let r1 :=
        if startswith bar_tag "member_"
        then {| member_name := split bar_tag !! 1%nat;
                schedule_index := schedule_index r;
                is_handle_left := is_handle_left r;
                is_handle_right := is_handle_right r;
                is_bar := is_bar r |}
        else r in
      if startswith bar_tag "schedule_" then
        match last (split bar_tag) with
        | None => None
        | Some piece =>
            match int piece with
            | None => None
            | Some n =>
                read_bar_of_handle int rest
                  {| member_name := member_name r1;
                     schedule_index := n;
                     is_handle_left := is_handle_left r1;
                     is_handle_right := is_handle_right r1;
                     is_bar := is_bar r1 |}
            end
        end
      else read_bar_of_handle int rest r1
  end.

(** A handle tag: the item number is read, the tags of that item are
    fetched from the canvas and read.  [None] is the [return] of the
    [except (ValueError, IndexError)] clause. *)
Definition read_handle
    (int : string -> option Z) (gettags : Z -> list string)
    (tag : string) (r : reading) : option reading :=
  match split tag !! 3%nat with
  | None => None
  | Some piece =>
      match int piece with
      | None => None
      | Some bar_item_id => read_bar_of_handle int (gettags bar_item_id) r
      end
  end.

(** The [for tag in tags] loop of [drag_start].  [None]: the handler
    returned from inside the loop. *)
Fixpoint read_tags
    (int : string -> option Z) (gettags : Z -> list string)
    (tags : list string) (r : reading) : option reading :=
  match tags with
  | [] => Some r
  | tag :: rest =>
      let r1 :=
        if startswith tag "member_"
        then {| member_name := split tag !! 1%nat;
                schedule_index := schedule_index r;
                is_handle_left := is_handle_left r;
                is_handle_right := is_handle_right r;
                is_bar := is_bar r |}
        else r in
      if startswith tag "schedule_bar_" then
        let n :=
          match last (split tag) with
          | Some piece => default (schedule_index r1) (int piece)
          | None => schedule_index r1
          end in
        read_tags int gettags rest
          {| member_name := member_name r1; schedule_index := n;
             is_handle_left := is_handle_left r1;
             is_handle_right := is_handle_right r1; is_bar := true |}
      else if startswith tag "resize_handle_left_" then
        match read_handle int gettags tag
                {| member_name := member_name r1;
                   schedule_index := schedule_index r1;
                   is_handle_left := true;
                   is_handle_right := is_handle_right r1;
                   is_bar := is_bar r1 |} with
        | None => None
        | Some r2 => read_tags int gettags rest r2
        end
      else if startswith tag "resize_handle_right_" then
        match read_handle int gettags tag
                {| member_name := member_name r1;
                   schedule_index := schedule_index r1;
                   is_handle_left := is_handle_left r1;
                   is_handle_right := true;
                   is_bar := is_bar r1 |} with
        | None => None
        | Some r2 => read_tags int gettags rest r2
        end
      else read_tags int gettags rest r1
  end.

(** A tag none of the handlers reacts to, like the tag [current] that Tk
    itself puts on the item under the pointer. *)
Definition inert (tag : string) : bool :=
  negb (startswith tag "member_")
  && negb (startswith tag "schedule_bar_")
  && negb (startswith tag "resize_handle_left_")
  && negb (startswith tag "resize_handle_right_").

(** The drag mode [drag_start] chooses from the three flags. *)
Definition hit (r : reading) : option drag_mode :=
  if is_handle_left r then Some resize_left
  else if is_handle_right r then Some resize_right
  else if is_bar r then Some move
  else None.

(** [drag_start] on the item with the given tags (the item is on the
    canvas, so its coordinates can be read). *)
Definition drag_start
    (int : string -> option Z) (gettags : Z -> list string)
    (tags : list string) (dm : t) : Capture.started :=
  match read_tags int gettags tags start with
  | None => Capture.NoDrag
  | Some r => Capture.drag_start (hit r) (member_name r) (schedule_index r) dm
  end.

(** The loop of [show_context_menu]: member and bar tags only. *)
Fixpoint read_menu_tags
    (int : string -> option Z) (tags : list string)
    (member_name : option string) (schedule_index : Z) : option string * Z :=
  match tags with
  | [] => (member_name, schedule_index)
  | tag :: rest =>
      let member_name :=
        if startswith tag "member_" then split tag !! 1%nat else member_name in
      let schedule_index :=
        if startswith tag "schedule_bar_" then
          match last (split tag) with
          | Some piece => default schedule_index (int piece)
          | None => schedule_index
          end
        else schedule_index in
      read_menu_tags int rest member_name schedule_index
  end.

Definition show_context_menu
    (int : string -> option Z) (tags : list string) (dm : t)
    : option (string * (Z * Z) * Z) :=
  let '(member_name, schedule_index) := read_menu_tags int tags None (-1) in
  Capture.show_context_menu member_name schedule_index dm.

(** ** gui/chart_canvas.py *)

(** The tag [update_gantt_chart] gives a bar:
    [f"schedule_bar_{name}_{start}_{end}_{j}"]. *)
Definition gui_bar_tag (name : string) (schedule : Z * Z) (j : Z) : string :=
  "schedule_bar_" +:+ name +:+ "_" +:+ py_str schedule.1
    +:+ "_" +:+ py_str schedule.2 +:+ "_" +:+ py_str j.

(** What [start_drag] and [show_context_menu] read back from it: member
    name, schedule and index; [None] is the [(ValueError, IndexError)]
    clause. *)
Definition gui_parse_bar_tag (int : string -> option Z) (found_bar_tag : string)
    : option (string * (Z * Z) * Z) :=
  let parts := split found_bar_tag in
  match parts !! 2%nat, parts !! 3%nat, parts !! 4%nat, parts !! 5%nat with
  | Some member_name, Some p3, Some p4, Some p5 =>
      match int p3, int p4, int p5 with
      | Some start_hour, Some end_hour, Some original_index =>
          Some (member_name, (start_hour, end_hour), original_index)
      | _, _, _ => None
      end
  | _, _, _, _ => None
  end.

End Tags.

(** * Properties of the colour allocator *)

Section ColorManagerFacts.

Import ColorManager.

Implicit Types (used : gset string) (cm : ColorManager.t).

Lemma palette_size : length CHART_COLORS = 10%nat.
Proof. reflexivity. Qed.

Lemma palette_NoDup : NoDup CHART_COLORS.
Proof. apply (bool_decide_unpack _). vm_compute. exact I. Qed.

(** The loop condition at a palette position, and past the palette. *)
Lemma scan_cond_lookup used k c :
  CHART_COLORS !! k = Some c -> scan_cond used k = bool_decide (c ∈ used).
Proof.
  intros Hk. unfold scan_cond. rewrite Hk.
  destruct (decide (k < length CHART_COLORS)%nat) as [|Hge]; [done|].
  destruct Hge. eapply lookup_lt_Some, Hk.
Qed.

Lemma scan_cond_past used k :
  (length CHART_COLORS <= k)%nat -> scan_cond used k = false.
Proof.
  intros Hk. unfold scan_cond.
  destruct (decide (k < length CHART_COLORS)%nat); [lia | done].
Qed.

(** The loop walks over the positions where the condition holds and stops
    at the first one where it fails. *)
Lemma scan_stops used fuel i k :
  (i <= k)%nat -> (k - i <= fuel)%nat ->
  (forall j, (i <= j < k)%nat -> scan_cond used j = true) ->
  scan_cond used k = false ->
  scan fuel used i = k.
Proof.
  revert i. induction fuel as [|fuel IH]; intros i Hik Hfuel Hbelow Hk.
  - cbn. lia.
  - cbn [scan]. destruct (decide (i = k)) as [->|Hne].
    + by rewrite Hk.
    + rewrite Hbelow by lia. apply IH; [lia | lia | | done].
      intros j Hj. apply Hbelow. lia.
Qed.

(** The palette size is enough fuel: the loop has left its condition. *)
Lemma scan_exits used :
  scan_cond used (scan (length CHART_COLORS) used 0) = false.
Proof.
  assert (Hgen : forall fuel i,
             (length CHART_COLORS <= fuel + i)%nat ->
             scan_cond used (scan fuel used i) = false).
  { induction fuel as [|fuel IH]; intros i Hi; cbn [scan].
    - apply scan_cond_past. lia.
    - destruct (scan_cond used i) eqn:Hc; [|done]. apply IH. lia. }
  apply Hgen. lia.
Qed.

Lemma get_next_color_valid i :
  (i < length CHART_COLORS)%nat ->
  exists c, CHART_COLORS !! i = Some c /\
            get_next_color (ColorManager.mk i)
            = Some (c, ColorManager.mk ((i + 1) mod length CHART_COLORS)%nat).
Proof.
  intros Hi. destruct (lookup_lt_is_Some_2 CHART_COLORS i Hi) as [c Hc].
  exists c. split; [done|]. unfold get_next_color. cbn [current_color_index].
  by rewrite Hc.
Qed.

(** [n] calls from a valid index [i] return the palette entries at
    [i, i+1, ...] modulo the palette size, and leave the index at
    [(i + n) mod 10]. *)
Lemma next_colors_from n : forall i,
  (i < length CHART_COLORS)%nat ->
  exists colors,
    next_colors n (ColorManager.mk i)
    = Some (colors, ColorManager.mk ((i + n) mod length CHART_COLORS)%nat)
    /\ length colors = n
    /\ forall j, (j < n)%nat ->
         colors !! j = CHART_COLORS !! ((i + j) mod length CHART_COLORS)%nat.
Proof.
  induction n as [|n IH]; intros i Hi.
  - exists []. cbn [next_colors]. rewrite Nat.add_0_r, Nat.mod_small by done.
    split_and!; [done | done | intros j Hj; lia].
  - destruct (get_next_color_valid i Hi) as (c & Hc & Hnext).
    assert (Hi' : ((i + 1) mod length CHART_COLORS < length CHART_COLORS)%nat).
    { apply Nat.mod_upper_bound. rewrite palette_size. lia. }
    destruct (IH _ Hi') as (colors & Hrest & Hlen & Hnth).
    exists (c :: colors). cbn [next_colors]. rewrite Hnext, Hrest.
    rewrite Nat.Div0.add_mod_idemp_l.
    replace (i + 1 + n)%nat with (i + S n)%nat by lia.
    split_and!; [done | cbn; lia |].
    intros [|j] Hj.
    + rewrite Nat.add_0_r, Nat.mod_small by done. by rewrite Hc.
    + cbn [lookup list_lookup]. rewrite Hnth by lia.
      rewrite Nat.Div0.add_mod_idemp_l. f_equal. f_equal. lia.
Qed.

End ColorManagerFacts.

Section ColorManagerClaims.

Import ColorManager.

(** C6.  [set_current_color_index_based_on_used_colors] leaves the index at
    the smallest palette position whose colour is not in [used]; when every
    palette colour is in [used], the index is 0.  After re-seeding with the
    palette's third colour alone, the next colour handed out is the
    palette's first. *)
Theorem reseed_first_unused (used : gset string) (cm : ColorManager.t) :
  let cm' := set_current_color_index_based_on_used_colors used cm in
  (forall i c,
      CHART_COLORS !! i = Some c -> c ∉ used ->
      (forall j c', (j < i)%nat -> CHART_COLORS !! j = Some c' -> c' ∈ used) ->
      current_color_index cm' = i)
  /\ ((forall c, c ∈ CHART_COLORS -> c ∈ used) -> current_color_index cm' = 0%nat)
  /\ (forall c2 c0,
        CHART_COLORS !! 2%nat = Some c2 -> CHART_COLORS !! 0%nat = Some c0 ->
        used = {[ c2 ]} ->
        exists cm'', get_next_color cm' = Some (c0, cm'')).
Proof.
  assert (Hfirst : forall i c,
      CHART_COLORS !! i = Some c -> c ∉ used ->
      (forall j c', (j < i)%nat -> CHART_COLORS !! j = Some c' -> c' ∈ used) ->
      current_color_index
        (set_current_color_index_based_on_used_colors used cm) = i).
  { intros i c Hi Hc Hbelow.
    pose proof (lookup_lt_Some _ _ _ Hi) as Hlt.
    unfold set_current_color_index_based_on_used_colors.
    rewrite (scan_stops used (length CHART_COLORS) 0 i); [| lia | lia | |].
    - destruct (decide (length CHART_COLORS <= i)%nat); [lia | done].
    - intros j Hj.
      destruct (lookup_lt_is_Some_2 CHART_COLORS j) as [c' Hc']; [lia|].
      rewrite (scan_cond_lookup _ _ _ Hc'). apply bool_decide_eq_true.
      eapply Hbelow; [|done]. lia.
    - rewrite (scan_cond_lookup _ _ _ Hi). by apply bool_decide_eq_false. }
  cbv zeta. split_and!.
  - exact Hfirst.
  - intros Hall. unfold set_current_color_index_based_on_used_colors.
    rewrite (scan_stops used (length CHART_COLORS) 0 (length CHART_COLORS));
      [| lia | lia | | by apply scan_cond_past].
    + destruct (decide (length CHART_COLORS <= length CHART_COLORS)%nat); [done | lia].
    + intros j Hj.
      destruct (lookup_lt_is_Some_2 CHART_COLORS j) as [c' Hc']; [lia|].
      rewrite (scan_cond_lookup _ _ _ Hc'). apply bool_decide_eq_true.
      apply Hall. eapply list_elem_of_lookup_2, Hc'.
  - intros c2 c0 H2 H0 ->.
    assert (Hidx : current_color_index
              (set_current_color_index_based_on_used_colors {[c2]} cm) = 0%nat).
    { apply (Hfirst 0%nat c0 H0); [| intros j c' Hj; lia].
      intros Hin%elem_of_singleton. subst c0.
      pose proof palette_NoDup as Hnd.
      pose proof (NoDup_lookup _ _ _ _ Hnd H2 H0). lia. }
    destruct (set_current_color_index_based_on_used_colors {[c2]} cm) as [idx].
    cbn in Hidx. subst idx.
    unfold get_next_color. cbn [current_color_index]. rewrite H0. eauto.
Qed.

Lemma reseed_first_unused_witness :
  current_color_index
    (set_current_color_index_based_on_used_colors {[ "salmon"%string ]} init) = 0%nat
  /\ exists cm'',
       get_next_color
         (set_current_color_index_based_on_used_colors {[ "salmon"%string ]} init)
       = Some ("skyblue"%string, cm'').
Proof.
  split.
  - apply (proj1 (reseed_first_unused {[ "salmon"%string ]} init) 0%nat "skyblue"%string).
    + reflexivity.
    + vm_compute. intros H. inversion H.
    + intros j c' Hj. lia.
  - apply (proj2 (proj2 (reseed_first_unused {[ "salmon"%string ]} init))
             "salmon"%string "skyblue"%string); reflexivity.
Defined.

(** C7.  From a fresh allocator, the first [N <= 10] calls of
    [get_next_color] return the first [N] palette colours in palette
    order, which are pairwise distinct; the call after [k] earlier calls
    returns the palette entry at [k mod 10]; so the 11th call returns the
    palette's first colour again. *)
Theorem next_colors_palette_order :
  (forall N, (N <= length CHART_COLORS)%nat ->
     exists cm, next_colors N init = Some (take N CHART_COLORS, cm)
                /\ NoDup (take N CHART_COLORS))
  /\ (forall k, exists colors cm c cm',
        next_colors k init = Some (colors, cm)
        /\ get_next_color cm = Some (c, cm')
        /\ CHART_COLORS !! (k mod length CHART_COLORS)%nat = Some c)
  /\ (exists colors cm cm',
        next_colors (length CHART_COLORS) init = Some (colors, cm)
        /\ length CHART_COLORS = 10%nat
        /\ CHART_COLORS !! 0%nat = Some "skyblue"%string
        /\ get_next_color cm = Some ("skyblue"%string, cm')).
Proof.
  assert (H0 : (0 < length CHART_COLORS)%nat) by (rewrite palette_size; lia).
  split_and!.
  - intros N HN.
    destruct (next_colors_from N 0%nat H0) as (colors & Hrun & Hlen & Hnth).
    eexists. split.
    + unfold init. rewrite Hrun. f_equal. f_equal.
      apply list_eq. intros j. destruct (decide (j < N)%nat) as [Hj|Hj].
      * rewrite Hnth, lookup_take_lt by done.
        cbn [Nat.add]. by rewrite Nat.mod_small by lia.
      * rewrite lookup_take_ge by lia. apply lookup_ge_None_2. lia.
    + pose proof palette_NoDup as Hnd.
      rewrite <- (take_drop N CHART_COLORS) in Hnd.
      by apply NoDup_app in Hnd as [? _].
  - intros k.
    destruct (next_colors_from k 0%nat H0) as (colors & Hrun & _ & _).
    cbn [Nat.add] in Hrun.
    destruct (get_next_color_valid (k mod length CHART_COLORS)%nat)
      as (c & Hc & Hnext).
    { apply Nat.mod_upper_bound. lia. }
    exists colors. eexists. exists c. eexists. split_and!; [exact Hrun | exact Hnext | exact Hc].
  - destruct (next_colors_from (length CHART_COLORS) 0%nat H0)
      as (colors & Hrun & _ & _).
    exists colors. eexists. eexists. split_and!; [exact Hrun | reflexivity | reflexivity |].
    reflexivity.
Qed.

Lemma next_colors_palette_order_witness :
  exists cm, next_colors 3 init
             = Some (["skyblue"; "lightgreen"; "salmon"]%string, cm)
             /\ NoDup (take 3 CHART_COLORS).
Proof.
  apply (proj1 next_colors_palette_order 3%nat). vm_compute.
  repeat constructor.
Defined.

End ColorManagerClaims.

(** * Properties of the list operations *)

Section PyListFacts.

Import PyList.

Implicit Types (x y : Z * Z) (l : list (Z * Z)).

Lemma tuple_lt_true x y : tuple_lt x y = true -> tuple_le x y.
Proof.
  unfold tuple_lt, tuple_le.
  destruct (Z.eqb_spec x.1 y.1), (Z.eqb_spec x.2 y.2); cbn; lia.
Qed.

Lemma tuple_lt_false x y : tuple_lt x y = false -> tuple_le y x.
Proof.
  unfold tuple_lt, tuple_le.
  destruct (Z.eqb_spec x.1 y.1), (Z.eqb_spec x.2 y.2); cbn; lia.
Qed.

#[local] Instance tuple_le_trans : Transitive tuple_le.
Proof. intros [] [] []. unfold tuple_le. cbn. lia. Qed.

#[local] Instance tuple_le_antisym : AntiSymm (=) tuple_le.
Proof.
  intros [a1 a2] [b1 b2]. unfold tuple_le. cbn. intros H1 H2.
  f_equal; lia.
Qed.

Lemma tuple_le_start x y : tuple_le x y -> x.1 <= y.1.
Proof. unfold tuple_le. lia. Qed.

Lemma insert_sorted_perm x l : insert_sorted x l ≡ₚ x :: l.
Proof.
  induction l as [|y l IH]; cbn; [done|].
  destruct (tuple_lt x y); [done|]. rewrite IH. apply Permutation_swap.
Qed.

Lemma insert_sorted_sorted x l :
  StronglySorted tuple_le l -> StronglySorted tuple_le (insert_sorted x l).
Proof.
  induction 1 as [|y l Hl IH Hy]; cbn.
  - repeat constructor.
  - destruct (tuple_lt x y) eqn:Hxy.
    + apply tuple_lt_true in Hxy. constructor; [by constructor|].
      constructor; [done|]. eapply Forall_impl; [exact Hy|].
      intros z Hz. by etrans.
    + apply tuple_lt_false in Hxy. constructor; [done|].
      rewrite insert_sorted_perm. by constructor.
Qed.

Lemma foldl_insert_perm l : forall acc,
  foldl (fun acc x => insert_sorted x acc) acc l ≡ₚ acc ++ l.
Proof.
  induction l as [|x l IH]; intros acc; cbn.
  - by rewrite app_nil_r.
  - rewrite IH, insert_sorted_perm. cbn. apply Permutation_middle.
Qed.

Lemma foldl_insert_sorted l : forall acc,
  StronglySorted tuple_le acc ->
  StronglySorted tuple_le (foldl (fun acc x => insert_sorted x acc) acc l).
Proof.
  induction l as [|x l IH]; intros acc Hacc; cbn; [done|].
  by apply IH, insert_sorted_sorted.
Qed.

(** [sort] returns a sorted rearrangement of its argument, *)
Lemma sort_perm l : sort l ≡ₚ l.
Proof. unfold sort. by rewrite foldl_insert_perm. Qed.

Lemma sort_sorted l : StronglySorted tuple_le (sort l).
Proof. apply foldl_insert_sorted. constructor. Qed.

(** and there is only one: the result depends on the elements alone. *)
Lemma sort_perm_eq l1 l2 : l1 ≡ₚ l2 -> sort l1 = sort l2.
Proof.
  intros Hp. apply (StronglySorted_unique tuple_le); try apply sort_sorted.
  by rewrite !sort_perm.
Qed.

Lemma sort_sorted_by_start l : DataManager.sorted_by_start (sort l).
Proof.
  apply StronglySorted_Sorted.
  induction (sort_sorted l) as [|x l' Hl' IH Hx]; constructor; [done|].
  eapply Forall_impl; [exact Hx|]. intros y Hy. by apply tuple_le_start.
Qed.

#[local] Instance start_le_trans : Transitive (fun a b : Z * Z => a.1 <= b.1).
Proof. intros a b c. lia. Qed.

(** Taking elements out of a list sorted by start leaves it sorted. *)
Lemma sorted_by_start_sublist l1 l2 :
  l1 `sublist_of` l2 ->
  DataManager.sorted_by_start l2 -> DataManager.sorted_by_start l1.
Proof.
  unfold DataManager.sorted_by_start. intros Hsub Hs.
  apply StronglySorted_Sorted.
  apply (Sorted_StronglySorted _) in Hs.
  induction Hsub as [|x l1 l2 Hsub IH|x l1 l2 Hsub IH].
  - constructor.
  - apply StronglySorted_inv in Hs as [Hs Hx]. constructor; [by apply IH|].
    rewrite Forall_forall in Hx |- *. intros z Hz.
    apply Hx. by eapply elem_of_sublist.
  - apply StronglySorted_inv in Hs as [Hs _]. by apply IH.
Qed.

(** [position]: the three ranges of an index. *)
Lemma position_nonneg {A} (l : list A) i :
  0 <= i < Z.of_nat (length l) -> position l i = Some (Z.to_nat i).
Proof.
  intros Hi. unfold position.
  destruct (Z.leb_spec 0 i); [|lia]. destruct (Z.ltb_spec i (Z.of_nat (length l))); [done|lia].
Qed.

Lemma position_negative {A} (l : list A) i :
  - Z.of_nat (length l) <= i < 0 ->
  position l i = Some (Z.to_nat (Z.of_nat (length l) + i)).
Proof.
  intros Hi. unfold position.
  destruct (Z.leb_spec 0 i); [lia|].
  destruct (Z.leb_spec 0 (Z.of_nat (length l) + i)); [done|lia].
Qed.

Lemma position_below {A} (l : list A) i :
  i < - Z.of_nat (length l) -> position l i = None.
Proof.
  intros Hi. unfold position.
  destruct (Z.leb_spec 0 i); [lia|].
  destruct (Z.leb_spec 0 (Z.of_nat (length l) + i)); [lia|done].
Qed.

Lemma position_lt {A} (l : list A) i n :
  position l i = Some n -> (n < length l)%nat.
Proof.
  unfold position.
  destruct (Z.leb_spec 0 i).
  - destruct (Z.ltb_spec i (Z.of_nat (length l))); intros [= <-]; lia.
  - destruct (Z.leb_spec 0 (Z.of_nat (length l) + i)); intros [= <-]; lia.
Qed.

(** [remove]: failure exactly when the value is absent; otherwise the
    first occurrence goes. *)
Lemma remove_absent x l : x ∉ l -> remove x l = inl ValueError.
Proof.
  induction l as [|y l IH]; intros Hx; cbn; [done|].
  apply not_elem_of_cons in Hx as [Hne Hx].
  destruct (decide (y = x)); [congruence|]. by rewrite IH.
Qed.

Lemma remove_present x l :
  x ∈ l ->
  exists l1 l2, l = l1 ++ x :: l2 /\ (x ∉ l1) /\ remove x l = inr (l1 ++ l2).
Proof.
  induction l as [|y l IH]; intros Hx; [by apply elem_of_nil in Hx|].
  cbn. destruct (decide (y = x)) as [->|Hne].
  - exists [], l. split_and!; [done | apply not_elem_of_nil | done].
  - apply elem_of_cons in Hx as [->|Hx]; [done|].
    destruct (IH Hx) as (l1 & l2 & -> & Hl1 & ->).
    exists (y :: l1), l2. split_and!; [done | | done].
    apply not_elem_of_cons. split; [congruence | done].
Qed.

Lemma remove_inr x l l' :
  remove x l = inr l' -> l ≡ₚ x :: l' /\ l' `sublist_of` l.
Proof.
  destruct (decide (x ∈ l)) as [Hin|Hnin].
  - destruct (remove_present x l Hin) as (l1 & l2 & -> & _ & ->).
    intros [= <-]. split; [by rewrite Permutation_middle|].
    apply sublist_app; [done|]. by apply sublist_cons.
  - by rewrite remove_absent.
Qed.

Lemma remove_raises x l e : remove x l = inl e -> e = ValueError /\ x ∉ l.
Proof.
  destruct (decide (x ∈ l)) as [Hin|Hnin].
  - destruct (remove_present x l Hin) as (l1 & l2 & _ & _ & ->). done.
  - rewrite remove_absent by done. by intros [= <-].
Qed.

End PyListFacts.

(** * Properties of the removal step of update and delete *)

Section RemovalFacts.

Import PyList DataManager.

Implicit Types (x : Z * Z) (l : list (Z * Z)) (i : Z).

(** Identity path, index counted from the front. *)
Lemma remove_at_front l x i :
  0 <= i < Z.of_nat (length l) ->
  l !! Z.to_nat i = Some x ->
  remove_at_or_by_value l x i = inr (delete (Z.to_nat i) l).
Proof.
  intros Hi Hx. unfold remove_at_or_by_value, getitem, delitem.
  destruct (Z.ltb_spec i (Z.of_nat (length l))); [|lia].
  rewrite position_nonneg, Hx by done.
  destruct (decide (x = x)); done.
Qed.

(** Identity path, index counted from the end. *)
Lemma remove_at_back l x i :
  - Z.of_nat (length l) <= i < 0 ->
  l !! Z.to_nat (Z.of_nat (length l) + i) = Some x ->
  remove_at_or_by_value l x i
  = inr (delete (Z.to_nat (Z.of_nat (length l) + i)) l).
Proof.
  intros Hi Hx. unfold remove_at_or_by_value, getitem, delitem.
  destruct (Z.ltb_spec i (Z.of_nat (length l))); [|lia].
  rewrite position_negative, Hx by done.
  destruct (decide (x = x)); done.
Qed.

(** An index below [-len(l)] raises [IndexError] before anything else. *)
Lemma remove_at_below l x i :
  i < - Z.of_nat (length l) -> remove_at_or_by_value l x i = inl IndexError.
Proof.
  intros Hi. unfold remove_at_or_by_value, getitem.
  destruct (Z.ltb_spec i (Z.of_nat (length l))); [|lia].
  by rewrite position_below.
Qed.

(** Every other case is the search by value. *)
Lemma remove_at_fallback l x i :
  - Z.of_nat (length l) <= i ->
  (forall n, position l i = Some n -> l !! n <> Some x) ->
  remove_at_or_by_value l x i = remove x l.
Proof.
  intros Hi Hne. unfold remove_at_or_by_value, getitem.
  destruct (Z.ltb_spec i (Z.of_nat (length l))) as [Hlt|Hge]; [|done].
  destruct (position l i) as [n|] eqn:Hpos.
  - destruct (l !! n) as [s|] eqn:Hs.
    + destruct (decide (s = x)) as [->|]; [|done]. by destruct (Hne n).
    + apply lookup_ge_None in Hs. apply position_lt in Hpos. lia.
  - destruct (Z.le_gt_cases 0 i).
    + rewrite position_nonneg in Hpos by lia. done.
    + rewrite position_negative in Hpos by lia. done.
Qed.

(** Whatever path is taken, a successful removal takes one copy of the
    value out of the list. *)
Lemma remove_at_inr l x i l' :
  remove_at_or_by_value l x i = inr l' ->
  l ≡ₚ x :: l' /\ l' `sublist_of` l.
Proof.
  unfold remove_at_or_by_value, getitem, delitem.
  destruct (Z.ltb_spec i (Z.of_nat (length l))) as [Hlt|Hge];
    [|apply remove_inr].
  destruct (position l i) as [n|] eqn:Hpos; [|done].
  destruct (l !! n) as [s|] eqn:Hs; [|done].
  destruct (decide (s = x)) as [->|]; [|apply remove_inr].
  intros [= <-]. split; [by apply delete_Permutation | apply sublist_delete].
Qed.

(** A failed removal is either a value that is not there, or an index
    below the range. *)
Lemma remove_at_inl l x i e :
  remove_at_or_by_value l x i = inl e ->
  (e = ValueError /\ (x ∉ l) /\ - Z.of_nat (length l) <= i)
  \/ (e = IndexError /\ i < - Z.of_nat (length l)).
Proof.
  destruct (Z.lt_ge_cases i (- Z.of_nat (length l))) as [Hlow|Hin].
  - rewrite remove_at_below by done. intros [= <-]. by right.
  - intros Hr. left.
    unfold remove_at_or_by_value, getitem, delitem in Hr.
    destruct (Z.ltb_spec i (Z.of_nat (length l))) as [Hlt|Hge].
    + destruct (position l i) as [n|] eqn:Hpos.
      * destruct (l !! n) as [s|] eqn:Hs.
        -- destruct (decide (s = x)); [done|].
           by destruct (remove_raises _ _ _ Hr).
        -- apply lookup_ge_None in Hs. apply position_lt in Hpos. lia.
      * destruct (Z.le_gt_cases 0 i).
        -- rewrite position_nonneg in Hpos by lia. done.
        -- rewrite position_negative in Hpos by lia. done.
    + by destruct (remove_raises _ _ _ Hr).
Qed.

(** When the value is absent the removal fails, with the error kind fixed
    by the index alone. *)
Lemma remove_at_absent l x i :
  x ∉ l ->
  remove_at_or_by_value l x i
  = inl (if decide (i < - Z.of_nat (length l)) then IndexError else ValueError).
Proof.
  intros Hx. destruct (decide (i < - Z.of_nat (length l))) as [Hlow|Hin].
  - by apply remove_at_below.
  - rewrite remove_at_fallback; [by apply remove_absent | lia |].
    intros n _ Hn. apply Hx. by eapply list_elem_of_lookup_2.
Qed.

End RemovalFacts.

(** * Properties of the schedule store *)

Section DataManagerFacts.

Import PyList DataManager.

Implicit Types (dm : DataManager.t) (m : member) (name : string).

Lemma family_members_saved name m l dm :
  family_members (save_data (set_schedules name m l dm))
  = <[name := {| schedules := l; color := color m |}]> (family_members dm).
Proof. reflexivity. Qed.

Lemma all_sorted_insert name l c dm dm' :
  all_sorted dm -> sorted_by_start l ->
  family_members dm' = <[name := {| schedules := l; color := c |}]> (family_members dm) ->
  all_sorted dm'.
Proof.
  intros Hdm Hl Heq n m'. rewrite Heq.
  destruct (decide (name = n)) as [->|Hne].
  - rewrite lookup_insert_eq. by intros [= <-].
  - rewrite lookup_insert_ne by done. apply Hdm.
Qed.

Lemma all_sorted_delete name dm dm' :
  all_sorted dm ->
  family_members dm' = delete name (family_members dm) ->
  all_sorted dm'.
Proof.
  intros Hdm Heq n m'. rewrite Heq. intros Hn.
  apply lookup_delete_Some in Hn as [_ Hn]. by eapply Hdm.
Qed.

Lemma init_all_sorted : all_sorted init.
Proof. intros n m'. cbn. by rewrite lookup_empty. Qed.

(** A failed call of any operation leaves the whole store as it was. *)
Lemma run_failure_unchanged op dm f dm' :
  run op dm = (Failure f, dm') -> dm' = dm.
Proof.
  destruct op; cbn;
    unfold add_member, delete_member, add_schedule, clear_member_schedules,
           update_schedule, delete_schedule;
    destruct (family_members dm !! name) as [m|]; try congruence.
  - destruct (ColorManager.get_next_color _) as [[c cm']|]; congruence.
  - destruct (remove_at_or_by_value _ _ _); congruence.
  - destruct (remove_at_or_by_value _ _ _); congruence.
Qed.

(** The allocator invariant holds initially and every operation keeps it. *)
Lemma get_next_color_keeps_valid cm c cm' :
  ColorManager.get_next_color cm = Some (c, cm') -> ColorManager.valid cm'.
Proof.
  unfold ColorManager.get_next_color.
  destruct (_ !! _); [|done]. intros H. injection H as _ <-.
  unfold ColorManager.valid.
  apply (Nat.mod_upper_bound _ (length ColorManager.CHART_COLORS)).
  rewrite palette_size. lia.
Qed.

Lemma run_keeps_valid op dm :
  ColorManager.valid (color_manager dm) ->
  ColorManager.valid (color_manager (run op dm).2).
Proof.
  intros Hv.
  destruct op; cbn;
    unfold add_member, delete_member, add_schedule, clear_member_schedules,
           update_schedule, delete_schedule;
    destruct (family_members dm !! name) as [m|]; try done.
  - destruct (ColorManager.get_next_color _) as [[c cm']|] eqn:Hc; [|done].
    cbn. by eapply get_next_color_keeps_valid.
  - by destruct (remove_at_or_by_value _ _ _).
  - by destruct (remove_at_or_by_value _ _ _).
Qed.

(** Every operation, whatever its result, keeps all lists sorted by start.
    Additions and updates sort; a deletion does not, and relies on the list
    having been sorted before. *)
Lemma run_keeps_sorted op dm : all_sorted dm -> all_sorted (run op dm).2.
Proof.
  intros Hdm.
  destruct op; cbn;
    unfold add_member, delete_member, add_schedule, clear_member_schedules,
           update_schedule, delete_schedule;
    destruct (family_members dm !! name) as [m|] eqn:Hm; try done.
  - destruct (ColorManager.get_next_color _) as [[c cm']|]; [|done].
    eapply all_sorted_insert; [done | constructor | reflexivity].
  - eapply all_sorted_delete; [done | reflexivity].
  - eapply all_sorted_insert; [done | apply sort_sorted_by_start | reflexivity].
  - eapply all_sorted_insert; [done | constructor | reflexivity].
  - destruct (remove_at_or_by_value _ _ _) as [e|l]; [done|].
    eapply all_sorted_insert; [done | apply sort_sorted_by_start | reflexivity].
  - destruct (remove_at_or_by_value _ _ _) as [e|l] eqn:Hr; [done|].
    apply remove_at_inr in Hr as [_ Hsub].
    eapply all_sorted_insert; [done | | reflexivity].
    eapply sorted_by_start_sublist; [exact Hsub|]. by eapply Hdm.
Qed.

(** Except for [delete_schedule], a successful operation leaves the list
    of the member it addresses sorted whatever the list was before. *)
Lemma run_sorts_target op dm dm' m' :
  (forall name s i, op <> DeleteSchedule name s i) ->
  run op dm = (Success, dm') ->
  family_members dm' !! target op = Some m' ->
  sorted_by_start (schedules m').
Proof.
  intros Hop.
  destruct op; cbn;
    unfold add_member, delete_member, add_schedule, clear_member_schedules,
           update_schedule, delete_schedule;
    destruct (family_members dm !! name) as [m|] eqn:Hm; try done.
  - destruct (ColorManager.get_next_color _) as [[c cm']|]; [|done].
    intros [= <-]. cbn. rewrite lookup_insert_eq. intros [= <-]. constructor.
  - intros [= <-]. cbn. by rewrite lookup_delete_eq.
  - intros [= <-]. cbn. rewrite lookup_insert_eq. intros [= <-].
    apply sort_sorted_by_start.
  - intros [= <-]. cbn. rewrite lookup_insert_eq. intros [= <-]. constructor.
  - destruct (remove_at_or_by_value _ _ _) as [e|l]; [by destruct e|].
    intros [= <-]. cbn. rewrite lookup_insert_eq. intros [= <-].
    apply sort_sorted_by_start.
  - by destruct (Hop name schedule index).
Qed.

(** The update of the specification's example: one schedule replaced, one
    snapshot written. *)
Example update_schedule_alice :
  update_schedule "Alice" (9, 17) 0 (10, 18) (Examples.alice [(9, 17)])
  = (Success, save_data (Examples.alice [(10, 18)]))
  /\ length (saved (save_data (Examples.alice [(10, 18)]))) = 1%nat.
Proof. split; reflexivity. Qed.

(** Hence every store reached from the empty one is sorted. *)
Lemma run_all_sorted ops : forall dm, all_sorted dm -> all_sorted (run_all ops dm).
Proof.
  induction ops as [|op ops IH]; intros dm Hdm; cbn; [done|].
  by apply IH, run_keeps_sorted.
Qed.

Lemma reachable_sorted ops : all_sorted (run_all ops init).
Proof. apply run_all_sorted, init_all_sorted. Qed.

(** [delete_schedule] itself does not sort: on a list that is not sorted
    (one read from a data file edited by hand, say) the rest stays in the
    order it had. *)
Example delete_schedule_keeps_order :
  delete_schedule "Alice" (5, 6) 0 (Examples.alice [(5, 6); (3, 4); (1, 2)])
  = (Success, save_data (Examples.alice [(3, 4); (1, 2)])).
Proof. reflexivity. Qed.


(** [update_schedule] for an index that is not below [-len]: the three
    cases of the specification.  A matching negative index takes the
    identity path, but after the sort the list is the one the search by
    value would have produced. *)
Lemma update_schedule_in_range name m dm old i new :
  family_members dm !! name = Some m ->
  - Z.of_nat (length (schedules m)) <= i ->
  let s := schedules m in
  let stored l := (Success, save_data (set_schedules name m l dm)) in
  (0 <= i < Z.of_nat (length s) -> s !! Z.to_nat i = Some old ->
     update_schedule name old i new dm
     = stored (sort (delete (Z.to_nat i) s ++ [new])))
  /\ (~ (0 <= i < Z.of_nat (length s) /\ s !! Z.to_nat i = Some old) ->
      old ∈ s ->
      exists l1 l2, s = l1 ++ old :: l2 /\ (old ∉ l1) /\
        update_schedule name old i new dm = stored (sort ((l1 ++ l2) ++ [new])))
  /\ (old ∉ s -> update_schedule name old i new dm = (Failure IntervalNotFound, dm)).
Proof.
  intros Hm Hi s stored. unfold update_schedule. rewrite Hm. fold s.
  split_and!.
  - intros Hi' Hold. by rewrite remove_at_front.
  - intros Hnot Hin.
    destruct (remove_present old s Hin) as (l1 & l2 & Hs & Hl1 & Hrem).
    exists l1, l2. split_and!; [done | done |].
    destruct (remove_at_or_by_value s old i) as [e|l'] eqn:Hr.
    + apply remove_at_inl in Hr as [(_ & Hnin & _)|(_ & Hlow)]; [done|].
      subst s. lia.
    + apply remove_at_inr in Hr as [Hp _].
      apply remove_inr in Hrem as [Hp' _].
      unfold stored. do 3 f_equal. apply sort_perm_eq.
      apply Permutation_app_tail.
      apply (Permutation_cons_inv (a := old)). by rewrite <- Hp, <- Hp'.
  - intros Hnin. rewrite remove_at_absent by done.
    destruct (decide (i < - Z.of_nat (length s))); [subst s; lia | done].
Qed.

(** With a value that is not in the list, update and delete both fail and
    change nothing; the failure is [IntervalNotFound] unless the index is
    below [-len]. *)
Lemma absent_value_fails name m dm old i new :
  family_members dm !! name = Some m ->
  old ∉ schedules m ->
  let f := if decide (i < - Z.of_nat (length (schedules m)))
           then UnexpectedError IndexError else IntervalNotFound in
  update_schedule name old i new dm = (Failure f, dm)
  /\ delete_schedule name old i dm = (Failure f, dm).
Proof.
  intros Hm Hnin. unfold update_schedule, delete_schedule.
  rewrite Hm, remove_at_absent by done.
  destruct (decide (i < - Z.of_nat (length (schedules m)))); done.
Qed.

End DataManagerFacts.

Section DataManagerClaims.

Import PyList DataManager.

Implicit Types (dm : DataManager.t) (m : member) (name : string).

(** C1.  Alice's schedules are [[(9, 17)]], so the value [(9, 17)] is in
    the list and the specification asks for a successful update by value.
    With the index [-2] the test [old_index < len(schedules)] passes,
    [schedules[-2]] raises [IndexError], the catch-all handler reports an
    unexpected error, and the store is left as it was. *)
Theorem update_schedule_index_below_range :
  let dm := Examples.alice [(9, 17)] in
  (exists m, family_members dm !! "Alice"%string = Some m /\ (9, 17) ∈ schedules m)
  /\ update_schedule "Alice" (9, 17) (-2) (10, 18) dm
     = (Failure (UnexpectedError IndexError), dm)
  /\ update_schedule "Alice" (9, 17) 5 (10, 18) dm
     = (Success, save_data (Examples.alice [(10, 18)])).
Proof.
  cbv zeta. split_and!.
  - eexists. split; [reflexivity|]. apply list_elem_of_here.
  - reflexivity.
  - reflexivity.
Qed.

(** C2.  Alice has no schedule, so neither the identity match nor the
    value match can succeed.  With the index [-1] both [update_schedule]
    and [delete_schedule] leave the store unchanged, but the failure they
    report is the unexpected [IndexError], not the interval-not-found
    one. *)
Theorem absent_value_index_below_range :
  let dm := Examples.alice [] in
  update_schedule "Alice" (9, 17) (-1) (10, 18) dm
  = (Failure (UnexpectedError IndexError), dm)
  /\ delete_schedule "Alice" (9, 17) (-1) dm
     = (Failure (UnexpectedError IndexError), dm)
  /\ update_schedule "Alice" (9, 17) 0 (10, 18) dm = (Failure IntervalNotFound, dm)
  /\ delete_schedule "Alice" (9, 17) 0 dm = (Failure IntervalNotFound, dm).
Proof. cbv zeta. split_and!; reflexivity. Qed.

(** C3.  Sortedness by start of every member's list is an invariant: if
    it holds before one of the six mutating operations and the operation
    succeeds, it holds afterwards. *)
Theorem mutation_preserves_sorted op dm dm' :
  all_sorted dm -> run op dm = (Success, dm') -> all_sorted dm'.
Proof.
  intros Hdm Hrun. pose proof (run_keeps_sorted op dm Hdm) as Hs.
  by rewrite Hrun in Hs.
Qed.

Lemma mutation_preserves_sorted_witness :
  all_sorted (save_data (Examples.alice [(8, 12); (9, 17)])).
Proof.
  apply (mutation_preserves_sorted
           (AddSchedule "Alice" 8 12) (Examples.alice [(9, 17)])).
  - intros n m. unfold Examples.alice. cbn [family_members].
    intros [<- <-]%lookup_singleton_Some. cbn. repeat constructor.
  - reflexivity.
Defined.

(** C8.  [add_member] on a name that is already there reports a duplicate
    and changes nothing; on a new name it succeeds, and the new store maps
    the name to an empty schedule list with the colour the allocator hands
    out next, every other member being as before. *)
Theorem add_member_spec name dm :
  (is_Some (family_members dm !! name) ->
     add_member name dm = (Failure DuplicateMember, dm))
  /\ (family_members dm !! name = None ->
      ColorManager.valid (color_manager dm) ->
      exists c cm' dm',
        ColorManager.get_next_color (color_manager dm) = Some (c, cm')
        /\ add_member name dm = (Success, dm')
        /\ family_members dm' !! name = Some {| schedules := []; color := c |}
        /\ (forall n, n <> name -> family_members dm' !! n = family_members dm !! n)
        /\ color_manager dm' = cm'
        /\ saved dm' = family_members dm' :: saved dm).
Proof.
  unfold add_member. split.
  - intros [m ->]. done.
  - intros -> Hv. destruct dm as [fm [i] sv]. cbn in *.
    destruct (get_next_color_valid i Hv) as (c & _ & ->).
    do 3 eexists. split_and!; try reflexivity.
    + cbn. apply lookup_insert_eq.
    + intros n Hn. cbn. by apply lookup_insert_ne.
Qed.

Lemma add_member_spec_witness :
  add_member "Alice" (Examples.alice []) = (Failure DuplicateMember, Examples.alice [])
  /\ exists c cm' dm',
       ColorManager.get_next_color (color_manager (Examples.alice [])) = Some (c, cm')
       /\ add_member "Bob" (Examples.alice []) = (Success, dm')
       /\ family_members dm' !! "Bob"%string = Some {| schedules := []; color := c |}
       /\ (forall n, n <> "Bob"%string ->
             family_members dm' !! n = family_members (Examples.alice []) !! n)
       /\ color_manager dm' = cm'
       /\ saved dm' = family_members dm' :: saved (Examples.alice []).
Proof.
  split.
  - apply (proj1 (add_member_spec "Alice" (Examples.alice []))).
    eexists. reflexivity.
  - apply (proj2 (add_member_spec "Bob" (Examples.alice []))).
    + reflexivity.
    + vm_compute. lia.
Defined.

(** C10.  The identity test has no lower bound.  When a negative index
    [i] with [-len <= i < 0] designates, counted from the end, an element
    equal to the old schedule, [delete_schedule] and [update_schedule]
    take the identity path and remove the element at position [len + i];
    for [i = -1] that is the last element of the list, hence the last
    occurrence of the value. *)
Theorem negative_index_identity_path name m dm old i new :
  family_members dm !! name = Some m ->
  - Z.of_nat (length (schedules m)) <= i < 0 ->
  schedules m !! Z.to_nat (Z.of_nat (length (schedules m)) + i) = Some old ->
  let l' := delete (Z.to_nat (Z.of_nat (length (schedules m)) + i)) (schedules m) in
  delete_schedule name old i dm = (Success, save_data (set_schedules name m l' dm))
  /\ update_schedule name old i new dm
     = (Success, save_data (set_schedules name m (sort (l' ++ [new])) dm))
  /\ (i = -1 -> schedules m = l' ++ [old]).
Proof.
  intros Hm Hi Hold l'. unfold delete_schedule, update_schedule.
  rewrite Hm, remove_at_back by done. split_and!; [done | done |].
  intros ->. subst l'. revert Hold.
  replace (Z.to_nat (Z.of_nat (length (schedules m)) + -1))
    with (pred (length (schedules m))) by lia.
  destruct (schedules m) as [|x l] using rev_ind; [done|].
  rewrite length_app, Nat.add_1_r. cbn [pred length].
  rewrite lookup_app_r, Nat.sub_diag by done. intros [= ->].
  clear. induction l as [|y l IH]; cbn; [done | by f_equal].
Qed.

Lemma negative_index_identity_path_witness :
  let s := [(1, 2); (3, 4); (1, 2)] in
  delete_schedule "Alice" (1, 2) (-1) (Examples.alice s)
  = (Success, save_data (Examples.alice [(1, 2); (3, 4)]))
  /\ delete_schedule "Alice" (1, 2) 3 (Examples.alice s)
     = (Success, save_data (Examples.alice [(3, 4); (1, 2)])).
Proof.
  cbv zeta. split.
  - apply (proj1 (negative_index_identity_path "Alice"
             {| schedules := [(1, 2); (3, 4); (1, 2)]; color := "skyblue" |}
             (Examples.alice [(1, 2); (3, 4); (1, 2)]) (1, 2) (-1) (0, 1)
             eq_refl ltac:(cbn; lia) eq_refl)).
  - reflexivity.
Defined.

End DataManagerClaims.

(** * Properties of the chart canvases *)

Section ChartCanvasFacts.

(** [round] returns an integer at distance at most one half. *)
Lemma py_round_nearest (x : Q) :
  (inject_Z (py_round x) - (1 # 2) <= x <= inject_Z (py_round x) + (1 # 2))%Q.
Proof.
  unfold py_round.
  pose proof (Qfloor_le x) as Hlo.
  pose proof (Qlt_floor x) as Hhi.
  rewrite inject_Z_plus in Hhi.
  change (inject_Z 1) with 1%Q in Hhi.
  destruct (Qcompare (x - inject_Z (Qfloor x)) (1 # 2)) eqn:Hc.
  - apply Qeq_alt in Hc.
    destruct (Z.even (Qfloor x)); rewrite ?inject_Z_plus;
      change (inject_Z 1) with 1%Q; split; lra.
  - apply Qlt_alt in Hc. split; lra.
  - apply Qgt_alt in Hc. rewrite inject_Z_plus.
    change (inject_Z 1) with 1%Q. split; lra.
Qed.

(** What [FamilyscheduleApp.end_drag] does guarantee: a start that is not
    negative, an end after the start, and an end within the day as long as
    the rounded start is at most 23. *)
Lemma familyschedule_committed_bounds (s e : Q) :
  let c := FamilyscheduleApp.committed s e in
  0 <= c.1 < c.2 /\ (py_round s <= 23 -> c.2 <= 24).
Proof.
  unfold FamilyscheduleApp.committed. cbv zeta.
  destruct (Z.leb_spec (Z.min 24 (py_round e)) (Z.max 0 (py_round s))); cbn; lia.
Qed.

(** What [Gui.end_drag] does guarantee: a start that is not negative and
    an end within the day. *)
Lemma gui_committed_bounds (mode : drag_mode) (s e : Q) :
  let c := Gui.committed mode s e in
  0 <= c.1 /\ c.2 <= 24.
Proof.
  unfold Gui.committed. cbv zeta.
  destruct (Z.geb_spec (Z.max 0 (py_round s)) (Z.min 24 (py_round e)));
    [destruct mode|]; cbn; lia.
Qed.

End ChartCanvasFacts.

Section ChartCanvasClaims.

Import DataManager.

(** C4.  The commit step rounds, keeps the start at or above 0 and the end
    at or below 24, and repairs an end that is not after the start; but
    the committed schedule can leave the day.  In
    [FamilyscheduleApp/gui/chart_canvas.py] nothing is clamped after the
    repair: a bar ending the gesture at hours (23.6, 24.0) is committed as
    (24, 25).  In [gui/chart_canvas.py] the start has no upper bound: the
    bar of (20, 23) moved five hours to the right ends at hours (25, 28),
    is committed as (25, 24), and the store takes it.  The example of the
    specification, (8.6, 17.2), is committed as (9, 17) by both. *)
Theorem committed_leaves_the_day :
  FamilyscheduleApp.committed (236 # 10) 24 = (24, 25)
  /\ Gui.committed move 25 28 = (25, 24)
  /\ Gui.end_drag
       (Some {| Gui.mode := move; Gui.member_name := "Alice";
                Gui.original_schedule := (20, 23);
                Gui.original_schedule_tuple_index := 0 |})
       25 28 (Examples.alice [(20, 23)])
     = (None, Some Success, save_data (Examples.alice [(25, 24)]))
  /\ FamilyscheduleApp.committed (86 # 10) (172 # 10) = (9, 17)
  /\ Gui.committed move (86 # 10) (172 # 10) = (9, 17).
Proof. split_and!; reflexivity. Qed.

(** C5.  The candidate of a move drag has the duration of the original
    schedule, whatever the pointer position: its start is the snapped hour
    kept at or above 0, its end is start plus duration, and when that end
    would pass 24 the bar is shifted back to end at 24, the start being
    kept at or above 0 once more. *)
Theorem drag_motion_move_keeps_duration (new_start_hour_float : Q) (original : Z * Z) :
  let c := FamilyscheduleApp.drag_motion_move new_start_hour_float original in
  let duration := original.2 - original.1 in
  let start := Z.max 0 (FamilyscheduleApp.snapped new_start_hour_float) in
  c.2 - c.1 = duration
  /\ 0 <= c.1
  /\ (start + duration <= 24 -> c = (start, start + duration))
  /\ (24 < start + duration -> 0 <= 24 - duration -> c = (24 - duration, 24))
  /\ (24 < start + duration -> 24 - duration < 0 -> c = (0, duration)).
Proof.
  unfold FamilyscheduleApp.drag_motion_move. cbv zeta.
  set (start := Z.max 0 (FamilyscheduleApp.snapped new_start_hour_float)).
  set (duration := original.2 - original.1).
  assert (0 <= start) by (subst start; lia).
  destruct (Z.ltb_spec 24 (start + duration)) as [Hover|Hfit].
  - destruct (Z.ltb_spec (24 - duration) 0) as [Hneg|Hpos]; cbn [fst snd].
    + split_and!; [lia | lia | lia | lia | done].
    + split_and!; [lia | lia | lia | done | lia].
  - cbn [fst snd]. split_and!; [lia | lia | done | lia | lia].
Qed.

Lemma drag_motion_move_keeps_duration_witness :
  FamilyscheduleApp.drag_motion_move (203 # 10) (9, 17) = (16, 24).
Proof.
  apply (proj1 (proj2 (proj2 (proj2
           (drag_motion_move_keeps_duration (203 # 10) (9, 17)))))).
  - vm_compute. reflexivity.
  - vm_compute. discriminate.
Defined.

(** C9.  When the schedule computed at the end of a drag equals the one
    captured at its start, neither canvas calls the store: the drag state
    is reset and the store, written snapshots included, is the same. *)
Theorem end_drag_same_schedule_no_store_call :
  (forall d s e dm,
      FamilyscheduleApp.committed s e = FamilyscheduleApp.original_schedule d ->
      FamilyscheduleApp.end_drag (Some d) s e dm = (None, None, dm))
  /\ (forall d s e dm,
        Gui.committed (Gui.mode d) s e = Gui.original_schedule d ->
        Gui.end_drag (Some d) s e dm = (None, None, dm)).
Proof.
  split; intros d s e dm Heq.
  - unfold FamilyscheduleApp.end_drag. cbv zeta.
    destruct (decide _) as [|Hne]; [done | by destruct Hne].
  - unfold Gui.end_drag. cbv zeta.
    destruct (decide _) as [|Hne]; [done | by destruct Hne].
Qed.

Lemma end_drag_same_schedule_no_store_call_witness :
  FamilyscheduleApp.end_drag
    (Some {| FamilyscheduleApp.mode := resize_right;
             FamilyscheduleApp.member_name := "Alice";
             FamilyscheduleApp.original_schedule := (9, 17);
             FamilyscheduleApp.original_index := 0 |})
    (88 # 10) (172 # 10) (Examples.alice [(9, 17)])
  = (None, None, Examples.alice [(9, 17)])
  /\ Gui.end_drag
       (Some {| Gui.mode := move; Gui.member_name := "Alice";
                Gui.original_schedule := (9, 17);
                Gui.original_schedule_tuple_index := 0 |})
       (92 # 10) (172 # 10) (Examples.alice [(9, 17)])
     = (None, None, Examples.alice [(9, 17)]).
Proof.
  split.
  - apply (proj1 end_drag_same_schedule_no_store_call). reflexivity.
  - apply (proj2 end_drag_same_schedule_no_store_call). reflexivity.
Defined.

End ChartCanvasClaims.

(** * Further properties of the schedule store *)

Section StoreProperties.

Import PyList DataManager.

Implicit Types (dm : DataManager.t) (m : member) (name : string)
  (l : list (Z * Z)).

#[local] Existing Instance tuple_le_antisym.
#[local] Existing Instance tuple_le_trans.

Ltac run_cases op dm :=
  destruct op; cbn;
  unfold add_member, delete_member, add_schedule, clear_member_schedules,
         update_schedule, delete_schedule;
  destruct (family_members dm !! _) as [?m|] eqn:?Hm;
  try destruct (ColorManager.get_next_color _) as [[?c ?cm']|] eqn:?Hc;
  try destruct (remove_at_or_by_value _ _ _) as [?e|?l] eqn:?Hr.

Lemma StronglySorted_sublist {A} (R : relation A) (l1 l2 : list A) :
  l1 `sublist_of` l2 -> StronglySorted R l2 -> StronglySorted R l1.
Proof.
  induction 1 as [|x l1 l2 Hsub IH|x l1 l2 Hsub IH]; intros Hs.
  - constructor.
  - apply StronglySorted_inv in Hs as [Hs Hx]. constructor; [by apply IH|].
    rewrite Forall_forall in Hx |- *. intros z Hz.
    apply Hx. by eapply elem_of_sublist.
  - apply StronglySorted_inv in Hs as [Hs _]. by apply IH.
Qed.

Lemma lex_sorted_unique l1 l2 :
  StronglySorted tuple_le l1 -> StronglySorted tuple_le l2 -> l1 ≡ₚ l2 -> l1 = l2.
Proof. apply (StronglySorted_unique tuple_le). Qed.

Lemma handler_not_success e : handler e <> Success.
Proof. by destruct e. Qed.

(** X1.  An operation that does not report success, whether it reports a
    failure or raises, returns the store exactly as it received it:
    members, allocator and written snapshots. *)
Theorem unsuccessful_operation_changes_nothing op dm :
  (run op dm).1 <> Success -> (run op dm).2 = dm.
Proof. run_cases op dm; cbn; done. Qed.

Lemma unsuccessful_operation_changes_nothing_witness :
  (run (DeleteSchedule "Alice" (1, 2) 0) (Examples.alice [(9, 17)])).2
  = Examples.alice [(9, 17)].
Proof.
  apply unsuccessful_operation_changes_nothing. vm_compute. discriminate.
Defined.

Lemma run_success_saved op dm dm' :
  run op dm = (Success, dm') ->
  saved dm' = family_members dm' :: saved dm.
Proof.
  run_cases op dm; try done; try (by destruct e); by intros [= <-].
Qed.

(** X2.  A successful operation writes the data file exactly once, and
    what it writes is the dictionary it leaves behind. *)
Theorem successful_operation_writes_once op dm dm' :
  run op dm = (Success, dm') ->
  saved dm' = family_members dm' :: saved dm.
Proof. apply run_success_saved. Qed.

Lemma successful_operation_writes_once_witness :
  saved (save_data (Examples.alice [(8, 12); (9, 17)]))
  = family_members (save_data (Examples.alice [(8, 12); (9, 17)]))
    :: saved (Examples.alice [(9, 17)]).
Proof.
  apply (successful_operation_writes_once (AddSchedule "Alice" 8 12)).
  reflexivity.
Defined.

Lemma run_other_members op dm n :
  n <> target op ->
  family_members (run op dm).2 !! n = family_members dm !! n.
Proof.
  intros Hn. run_cases op dm; cbn in *; try done;
    by rewrite ?lookup_insert_ne, ?lookup_delete_ne by done.
Qed.

(** X3.  An operation touches no member but the one it names. *)
Theorem operation_leaves_other_members op dm n :
  n <> target op ->
  family_members (run op dm).2 !! n = family_members dm !! n.
Proof. apply run_other_members. Qed.

Lemma operation_leaves_other_members_witness :
  family_members
    (run (AddMember "Bob") (Examples.alice [(9, 17)])).2 !! "Alice"%string
  = family_members (Examples.alice [(9, 17)]) !! "Alice"%string.
Proof. apply operation_leaves_other_members. cbn. discriminate. Defined.

(** X4.  A member keeps the colour it was created with: no operation
    changes the colour of a member that exists before and after it. *)
Theorem member_colour_never_changes op dm n m m' :
  family_members dm !! n = Some m ->
  family_members (run op dm).2 !! n = Some m' ->
  color m' = color m.
Proof.
  intros Hn. destruct (decide (n = target op)) as [->|Hne].
  - destruct op; cbn in *;
      unfold add_member, delete_member, add_schedule, clear_member_schedules,
             update_schedule, delete_schedule;
      rewrite Hn;
      try destruct (remove_at_or_by_value _ _ _) as [e|l];
      cbn; rewrite ?Hn, ?lookup_insert_eq, ?lookup_delete_eq;
      try done; by intros [= <-].
  - rewrite run_other_members, Hn by done. by intros [= <-].
Qed.

Lemma member_colour_never_changes_witness :
  color {| schedules := [(10, 18)]; color := "skyblue" |}
  = color {| schedules := [(9, 17)]; color := "skyblue" |}.
Proof.
  apply (member_colour_never_changes
           (UpdateSchedule "Alice" (9, 17) 0 (10, 18))
           (Examples.alice [(9, 17)]) "Alice"); reflexivity.
Defined.

(** X5.  Adding a new member and deleting it again restores the
    dictionary of members, but not the allocator: its index has moved on
    by one, so the colour handed out is not given back. *)
Theorem add_then_delete_member name dm :
  family_members dm !! name = None ->
  ColorManager.valid (color_manager dm) ->
  exists dm1 dm2,
    add_member name dm = (Success, dm1)
    /\ delete_member name dm1 = (Success, dm2)
    /\ family_members dm2 = family_members dm
    /\ ColorManager.current_color_index (color_manager dm2)
       = ((ColorManager.current_color_index (color_manager dm) + 1)
            mod length ColorManager.CHART_COLORS)%nat.
Proof.
  intros Hn Hv. destruct dm as [fm [i] sv]. cbn in *.
  destruct (get_next_color_valid i Hv) as (c & _ & Hc).
  unfold add_member, delete_member. cbn. rewrite Hn, Hc.
  do 2 eexists. split; [reflexivity|]. cbn. rewrite lookup_insert_eq.
  split; [reflexivity|]. cbn. split; [by apply delete_insert_id | done].
Qed.

Lemma add_then_delete_member_witness :
  exists dm1 dm2,
    add_member "Bob" (Examples.alice []) = (Success, dm1)
    /\ delete_member "Bob" dm1 = (Success, dm2)
    /\ family_members dm2 = family_members (Examples.alice [])
    /\ ColorManager.current_color_index (color_manager dm2)
       = ((ColorManager.current_color_index (color_manager (Examples.alice [])) + 1)
            mod length ColorManager.CHART_COLORS)%nat.
Proof.
  apply add_then_delete_member; [reflexivity | vm_compute; lia].
Defined.

(** X6.  [add_schedule] checks nothing but the member: on a missing member
    it fails and changes nothing; otherwise it accepts any pair of hours,
    and the member's new list holds the old schedules and the new one,
    sorted by start and then end. *)
Theorem add_schedule_spec name start_hour end_hour dm :
  match family_members dm !! name with
  | None =>
      add_schedule name start_hour end_hour dm = (Failure MemberNotFound, dm)
  | Some m =>
      exists dm' m',
        add_schedule name start_hour end_hour dm = (Success, dm')
        /\ family_members dm' !! name = Some m'
        /\ color m' = color m
        /\ schedules m' ≡ₚ (start_hour, end_hour) :: schedules m
        /\ StronglySorted tuple_le (schedules m')
  end.
Proof.
  unfold add_schedule. destruct (family_members dm !! name) as [m|]; [|done].
  do 2 eexists. split; [reflexivity|]. cbn. rewrite lookup_insert_eq.
  split; [reflexivity|]. cbn. split_and!; [done | | apply sort_sorted].
  rewrite sort_perm. by rewrite Permutation_app_comm.
Qed.

Lemma update_schedule_outcome name m dm old i new :
  family_members dm !! name = Some m ->
  ((update_schedule name old i new dm).1 = Success
   <-> old ∈ schedules m /\ - Z.of_nat (length (schedules m)) <= i)
  /\ (forall dm' m',
        update_schedule name old i new dm = (Success, dm') ->
        family_members dm' !! name = Some m' ->
        old :: schedules m' ≡ₚ new :: schedules m
        /\ length (schedules m') = length (schedules m)
        /\ StronglySorted tuple_le (schedules m')).
Proof.
  intros Hm. unfold update_schedule. rewrite Hm.
  destruct (remove_at_or_by_value (schedules m) old i) as [e|l] eqn:Hr.
  - apply remove_at_inl in Hr. split.
    + split; [intros He; by destruct (handler_not_success e)|].
      intros [Hin Hi]. destruct Hr as [(_ & Hnin & _)|(_ & Hlow)]; [done | lia].
    + intros dm' m' [= He _]. by destruct (handler_not_success e).
  - pose proof (remove_at_inr _ _ _ _ Hr) as [Hp _]. split.
    + split; [intros _ | done]. split.
      * rewrite Hp. apply list_elem_of_here.
      * destruct (Z.lt_ge_cases i (- Z.of_nat (length (schedules m)))) as [Hlow|];
          [|done].
        by rewrite remove_at_below in Hr.
    + intros dm' m' [= <-]. cbn. rewrite lookup_insert_eq. intros [= <-]. cbn.
      assert (Hq : old :: sort (l ++ [new]) ≡ₚ new :: schedules m).
      { rewrite sort_perm, Hp, <- Permutation_cons_append. apply Permutation_swap. }
      split_and!; [done | | apply sort_sorted].
      apply Permutation_length in Hq. cbn in Hq. lia.
Qed.

(** X7.  For a member that exists, [update_schedule] succeeds exactly
    when the old schedule is in the list and the index is not below
    [-len]; a successful update exchanges one copy of the old schedule for
    the new one, so the list keeps its length, and leaves it sorted. *)
Theorem update_schedule_succeeds_iff name m dm old i new :
  family_members dm !! name = Some m ->
  ((update_schedule name old i new dm).1 = Success
   <-> old ∈ schedules m /\ - Z.of_nat (length (schedules m)) <= i)
  /\ (forall dm' m',
        update_schedule name old i new dm = (Success, dm') ->
        family_members dm' !! name = Some m' ->
        old :: schedules m' ≡ₚ new :: schedules m
        /\ length (schedules m') = length (schedules m)
        /\ StronglySorted tuple_le (schedules m')).
Proof. apply update_schedule_outcome. Qed.

Lemma update_schedule_succeeds_iff_witness :
  (update_schedule "Alice" (9, 17) 7 (10, 18) (Examples.alice [(9, 17)])).1 = Success
  <-> (9, 17) ∈ [(9, 17)] /\ - Z.of_nat (length [(9, 17)]) <= 7.
Proof.
  apply (proj1 (update_schedule_succeeds_iff "Alice"
           {| schedules := [(9, 17)]; color := "skyblue" |}
           (Examples.alice [(9, 17)]) (9, 17) 7 (10, 18) eq_refl)).
Defined.

Lemma delete_schedule_outcome name m dm x i :
  family_members dm !! name = Some m ->
  ((delete_schedule name x i dm).1 = Success
   <-> x ∈ schedules m /\ - Z.of_nat (length (schedules m)) <= i)
  /\ (forall dm' m',
        delete_schedule name x i dm = (Success, dm') ->
        family_members dm' !! name = Some m' ->
        schedules m ≡ₚ x :: schedules m'
        /\ schedules m' `sublist_of` schedules m
        /\ length (schedules m) = S (length (schedules m'))).
Proof.
  intros Hm. unfold delete_schedule. rewrite Hm.
  destruct (remove_at_or_by_value (schedules m) x i) as [e|l] eqn:Hr.
  - apply remove_at_inl in Hr. split.
    + split; [intros He; by destruct (handler_not_success e)|].
      intros [Hin Hi]. destruct Hr as [(_ & Hnin & _)|(_ & Hlow)]; [done | lia].
    + intros dm' m' [= He _]. by destruct (handler_not_success e).
  - pose proof (remove_at_inr _ _ _ _ Hr) as [Hp Hsub]. split.
    + split; [intros _ | done]. split.
      * rewrite Hp. apply list_elem_of_here.
      * destruct (Z.lt_ge_cases i (- Z.of_nat (length (schedules m)))) as [Hlow|];
          [|done].
        by rewrite remove_at_below in Hr.
    + intros dm' m' [= <-]. cbn. rewrite lookup_insert_eq. intros [= <-]. cbn.
      split_and!; [done | done |]. by rewrite Hp.
Qed.

(** X8.  For a member that exists, [delete_schedule] succeeds exactly when
    the schedule is in the list and the index is not below [-len]; a
    successful deletion takes out one copy of the schedule and nothing
    else. *)
Theorem delete_schedule_succeeds_iff name m dm x i :
  family_members dm !! name = Some m ->
  ((delete_schedule name x i dm).1 = Success
   <-> x ∈ schedules m /\ - Z.of_nat (length (schedules m)) <= i)
  /\ (forall dm' m',
        delete_schedule name x i dm = (Success, dm') ->
        family_members dm' !! name = Some m' ->
        schedules m ≡ₚ x :: schedules m'
        /\ schedules m' `sublist_of` schedules m
        /\ length (schedules m) = S (length (schedules m'))).
Proof. apply delete_schedule_outcome. Qed.

Lemma delete_schedule_succeeds_iff_witness :
  (delete_schedule "Alice" (9, 17) (-1) (Examples.alice [(9, 17)])).1 = Success
  <-> (9, 17) ∈ [(9, 17)] /\ - Z.of_nat (length [(9, 17)]) <= -1.
Proof.
  apply (proj1 (delete_schedule_succeeds_iff "Alice"
           {| schedules := [(9, 17)]; color := "skyblue" |}
           (Examples.alice [(9, 17)]) (9, 17) (-1) eq_refl)).
Defined.

(** X9.  The index passed to [update_schedule] does not influence the
    result as long as it is not below [-len]: whichever copy of the old
    schedule is removed, the sort gives the same list. *)
Theorem update_schedule_index_irrelevant name m dm old i j new :
  family_members dm !! name = Some m ->
  - Z.of_nat (length (schedules m)) <= i ->
  - Z.of_nat (length (schedules m)) <= j ->
  update_schedule name old i new dm = update_schedule name old j new dm.
Proof.
  intros Hm Hi Hj. unfold update_schedule. rewrite Hm.
  destruct (decide (old ∈ schedules m)) as [Hin|Hnin].
  - destruct (remove_at_or_by_value (schedules m) old i) as [e|l1] eqn:H1.
    { apply remove_at_inl in H1 as [(_ & ? & _)|(_ & ?)]; [done | lia]. }
    destruct (remove_at_or_by_value (schedules m) old j) as [e|l2] eqn:H2.
    { apply remove_at_inl in H2 as [(_ & ? & _)|(_ & ?)]; [done | lia]. }
    apply remove_at_inr in H1 as [H1 _]. apply remove_at_inr in H2 as [H2 _].
    do 3 f_equal. apply sort_perm_eq, Permutation_app_tail.
    apply (Permutation_cons_inv (a := old)). by rewrite <- H1, <- H2.
  - rewrite !remove_at_absent by done.
    by repeat destruct (decide _); try lia.
Qed.

Lemma update_schedule_index_irrelevant_witness :
  update_schedule "Alice" (1, 2) 0 (5, 6) (Examples.alice [(1, 2); (1, 2); (3, 4)])
  = update_schedule "Alice" (1, 2) 9 (5, 6) (Examples.alice [(1, 2); (1, 2); (3, 4)]).
Proof.
  apply (update_schedule_index_irrelevant "Alice"
           {| schedules := [(1, 2); (1, 2); (3, 4)]; color := "skyblue" |});
    [reflexivity | cbn; lia | cbn; lia].
Defined.

(** X10.  On a list that is sorted by start and then end, the index
    passed to [delete_schedule] does not influence the result either, as
    long as it is not below [-len]: equal schedules are neighbours, and
    removing any of them leaves the same list. *)
Theorem delete_schedule_index_irrelevant name m dm x i j :
  family_members dm !! name = Some m ->
  StronglySorted tuple_le (schedules m) ->
  - Z.of_nat (length (schedules m)) <= i ->
  - Z.of_nat (length (schedules m)) <= j ->
  delete_schedule name x i dm = delete_schedule name x j dm.
Proof.
  intros Hm Hs Hi Hj. unfold delete_schedule. rewrite Hm.
  destruct (decide (x ∈ schedules m)) as [Hin|Hnin].
  - destruct (remove_at_or_by_value (schedules m) x i) as [e|l1] eqn:H1.
    { apply remove_at_inl in H1 as [(_ & ? & _)|(_ & ?)]; [done | lia]. }
    destruct (remove_at_or_by_value (schedules m) x j) as [e|l2] eqn:H2.
    { apply remove_at_inl in H2 as [(_ & ? & _)|(_ & ?)]; [done | lia]. }
    apply remove_at_inr in H1 as [H1 S1]. apply remove_at_inr in H2 as [H2 S2].
    do 3 f_equal.
    apply (StronglySorted_unique tuple_le);
      [by eapply StronglySorted_sublist | by eapply StronglySorted_sublist |].
    apply (Permutation_cons_inv (a := x)). by rewrite <- H1, <- H2.
  - rewrite !remove_at_absent by done.
    by repeat destruct (decide _); try lia.
Qed.

Lemma delete_schedule_index_irrelevant_witness :
  delete_schedule "Alice" (1, 2) (-2) (Examples.alice [(1, 2); (1, 2); (3, 4)])
  = delete_schedule "Alice" (1, 2) 9 (Examples.alice [(1, 2); (1, 2); (3, 4)]).
Proof.
  apply (delete_schedule_index_irrelevant "Alice"
           {| schedules := [(1, 2); (1, 2); (3, 4)]; color := "skyblue" |});
    [reflexivity | | cbn; lia | cbn; lia].
  cbn. repeat constructor; unfold tuple_le; cbn; lia.
Defined.

Lemma all_lex_sorted_insert name l c dm dm' :
  Forms.all_lex_sorted dm -> StronglySorted tuple_le l ->
  family_members dm' = <[name := {| schedules := l; color := c |}]> (family_members dm) ->
  Forms.all_lex_sorted dm'.
Proof.
  intros Hdm Hl Heq n m'. rewrite Heq.
  destruct (decide (name = n)) as [->|Hne].
  - rewrite lookup_insert_eq. by intros [= <-].
  - rewrite lookup_insert_ne by done. apply Hdm.
Qed.

Lemma run_keeps_lex_sorted op dm :
  Forms.all_lex_sorted dm -> Forms.all_lex_sorted (run op dm).2.
Proof.
  intros Hdm. run_cases op dm; cbn; try done.
  - eapply all_lex_sorted_insert; [done | constructor | reflexivity].
  - intros n m'. cbn. intros [_ Hn]%lookup_delete_Some. by eapply Hdm.
  - eapply all_lex_sorted_insert; [done | apply sort_sorted | reflexivity].
  - eapply all_lex_sorted_insert; [done | constructor | reflexivity].
  - eapply all_lex_sorted_insert; [done | apply sort_sorted | reflexivity].
  - apply remove_at_inr in Hr as [_ Hsub].
    eapply all_lex_sorted_insert; [done | | reflexivity].
    eapply StronglySorted_sublist; [exact Hsub|]. by eapply Hdm.
Qed.

(** X11.  In every store reached from the empty one by any sequence of
    operations, successful or not, every member's list is sorted by start
    and, among equal starts, by end. *)
Theorem reachable_lex_sorted ops : Forms.all_lex_sorted (run_all ops init).
Proof.
  assert (Hgen : forall dm, Forms.all_lex_sorted dm ->
                            Forms.all_lex_sorted (run_all ops dm)).
  { induction ops as [|op ops IH]; intros dm Hdm; cbn; [done|].
    by apply IH, run_keeps_lex_sorted. }
  apply Hgen. intros n m'. cbn. by rewrite lookup_empty.
Qed.

(** X12.  On a sorted list, an update and the opposite update cancel: the
    dictionary of members is what it was, whatever the indices passed (not
    below [-len]).  Two snapshots have been written. *)
Theorem update_schedule_and_back name m dm old new i j :
  family_members dm !! name = Some m ->
  StronglySorted tuple_le (schedules m) ->
  old ∈ schedules m ->
  - Z.of_nat (length (schedules m)) <= i ->
  - Z.of_nat (length (schedules m)) <= j ->
  exists dm1 dm2,
    update_schedule name old i new dm = (Success, dm1)
    /\ update_schedule name new j old dm1 = (Success, dm2)
    /\ family_members dm2 = family_members dm
    /\ length (saved dm2) = S (S (length (saved dm))).
Proof.
  intros Hm Hs Hin Hi Hj.
  destruct (update_schedule_outcome name m dm old i new Hm) as [Hiff Hres].
  destruct (update_schedule name old i new dm) as [r1 dm1] eqn:H1.
  cbn in Hiff. assert (r1 = Success) as -> by (by apply Hiff).
  assert (Hm1 : exists m1, family_members dm1 !! name = Some m1
                           /\ color m1 = color m /\ saved dm1 = family_members dm1 :: saved dm).
  { revert H1. unfold update_schedule. rewrite Hm.
    destruct (remove_at_or_by_value _ _ _); [by destruct e|].
    intros [= <-]. eexists. cbn. rewrite lookup_insert_eq. done. }
  destruct Hm1 as (m1 & Hm1 & Hc1 & Hsv1).
  destruct (Hres dm1 m1 eq_refl Hm1) as (Hp1 & Hlen1 & Hs1).
  destruct (update_schedule_outcome name m1 dm1 new j old Hm1) as [Hiff2 Hres2].
  destruct (update_schedule name new j old dm1) as [r2 dm2] eqn:H2.
  cbn in Hiff2. assert (r2 = Success) as ->.
  { apply Hiff2. split; [|lia].
    assert (Hnew : new ∈ old :: schedules m1) by (rewrite Hp1; apply list_elem_of_here).
    apply elem_of_cons in Hnew as [->|]; [|done].
    assert (Hold : old ∈ old :: schedules m) by (by apply list_elem_of_further).
    rewrite <- Hp1 in Hold.
    apply (Permutation_cons_inv (a := old)) in Hp1. by rewrite Hp1. }
  exists dm1, dm2. split_and!; [done | done | |].
  - revert H2. unfold update_schedule. rewrite Hm1.
    destruct (remove_at_or_by_value (schedules m1) new j) as [e|l2] eqn:Hr2;
      [by destruct e|].
    intros [= <-]. cbn.
    apply remove_at_inr in Hr2 as [Hp2 _].
    assert (Hl2 : sort (l2 ++ [old]) = schedules m).
    { apply (StronglySorted_unique tuple_le); [apply sort_sorted | done |].
      rewrite sort_perm, <- Permutation_cons_append.
      apply (Permutation_cons_inv (a := new)).
      rewrite Permutation_swap, <- Hp2. by rewrite Hp1. }
    rewrite Hl2, Hc1.
    assert (Hfm1 : family_members dm1 = <[name := m1]> (family_members dm1))
      by (by rewrite insert_id).
    revert H1. unfold update_schedule. rewrite Hm.
    destruct (remove_at_or_by_value (schedules m) old i); [by destruct e|].
    intros [= <-]. cbn. rewrite insert_insert_eq.
    apply insert_id. rewrite Hm. by destruct m.
  - pose proof (run_success_saved
                  (UpdateSchedule name new j old) dm1 dm2 H2) as Hsv2.
    rewrite Hsv2, Hsv1. done.
Qed.

Lemma update_schedule_and_back_witness :
  exists dm1 dm2,
    update_schedule "Alice" (9, 17) 0 (10, 18) (Examples.alice [(9, 17)])
    = (Success, dm1)
    /\ update_schedule "Alice" (10, 18) 0 (9, 17) dm1 = (Success, dm2)
    /\ family_members dm2 = family_members (Examples.alice [(9, 17)])
    /\ length (saved dm2) = S (S (length (saved (Examples.alice [(9, 17)])))).
Proof.
  apply (update_schedule_and_back "Alice"
           {| schedules := [(9, 17)]; color := "skyblue" |});
    [reflexivity | repeat constructor | apply list_elem_of_here
     | cbn; lia | cbn; lia].
Defined.

(** X13.  On a sorted list, adding a schedule and deleting it again, with
    any index not below [-len], gives back the list as it was. *)
Theorem add_then_delete_schedule name m dm start_hour end_hour j :
  family_members dm !! name = Some m ->
  StronglySorted tuple_le (schedules m) ->
  - Z.of_nat (length (schedules m)) <= j ->
  exists dm1 dm2,
    add_schedule name start_hour end_hour dm = (Success, dm1)
    /\ delete_schedule name (start_hour, end_hour) j dm1 = (Success, dm2)
    /\ family_members dm2 = family_members dm.
Proof.
  intros Hm Hs Hj. unfold add_schedule. rewrite Hm.
  eexists. set (dm1 := save_data _).
  set (m1 := {| schedules := sort (schedules m ++ [(start_hour, end_hour)]);
                color := color m |}).
  assert (Hm1 : family_members dm1 !! name = Some m1)
    by (cbn; apply lookup_insert_eq).
  assert (Hp : schedules m1 ≡ₚ (start_hour, end_hour) :: schedules m).
  { cbn. by rewrite sort_perm, Permutation_app_comm. }
  destruct (delete_schedule_outcome name m1 dm1 (start_hour, end_hour) j Hm1)
    as [Hiff Hres].
  destruct (delete_schedule name (start_hour, end_hour) j dm1) as [r dm2] eqn:H2.
  cbn [fst] in Hiff. assert (r = Success) as ->.
  { apply Hiff. split.
    - rewrite Hp. apply list_elem_of_here.
    - apply Permutation_length in Hp. cbn [length] in Hp. lia. }
  exists dm2. split_and!; [done | done |].
  revert H2. unfold delete_schedule. rewrite Hm1.
  destruct (remove_at_or_by_value (schedules m1) _ j) as [e|l] eqn:Hr;
    [by destruct e|].
  intros [= <-]. cbn. rewrite insert_insert_eq.
  apply remove_at_inr in Hr as [Hq Hsub].
  assert (l = schedules m) as ->.
  { apply (StronglySorted_unique tuple_le); [| done |].
    - eapply StronglySorted_sublist; [exact Hsub | apply sort_sorted].
    - apply (Permutation_cons_inv (a := (start_hour, end_hour))).
      by rewrite <- Hq, <- Hp. }
  apply insert_id. rewrite Hm. by destruct m.
Qed.

Lemma add_then_delete_schedule_witness :
  exists dm1 dm2,
    add_schedule "Alice" 8 12 (Examples.alice [(9, 17)]) = (Success, dm1)
    /\ delete_schedule "Alice" (8, 12) 1 dm1 = (Success, dm2)
    /\ family_members dm2 = family_members (Examples.alice [(9, 17)]).
Proof.
  apply (add_then_delete_schedule "Alice"
           {| schedules := [(9, 17)]; color := "skyblue" |});
    [reflexivity | repeat constructor | cbn; lia].
Defined.

Lemma add_member_run name dm :
  family_members dm !! name = None ->
  ColorManager.valid (color_manager dm) ->
  exists c,
    ColorManager.CHART_COLORS !! ColorManager.current_color_index (color_manager dm)
    = Some c
    /\ family_members (run (AddMember name) dm).2
       = <[name := {| schedules := []; color := c |}]> (family_members dm)
    /\ ColorManager.current_color_index (color_manager (run (AddMember name) dm).2)
       = ((ColorManager.current_color_index (color_manager dm) + 1)
            mod length ColorManager.CHART_COLORS)%nat
    /\ ColorManager.valid (color_manager (run (AddMember name) dm).2).
Proof.
  intros Hn Hv. destruct dm as [fm [i] sv]. cbn in *.
  destruct (get_next_color_valid i Hv) as (c & Hi & Hc).
  exists c. unfold add_member. cbn. rewrite Hn, Hc. cbn.
  split_and!; [done | done | done |].
  apply (Nat.mod_upper_bound _ (length ColorManager.CHART_COLORS)).
  rewrite palette_size. lia.
Qed.

Lemma add_members_from names : forall dm,
  NoDup names ->
  (forall n, n ∈ names -> family_members dm !! n = None) ->
  ColorManager.valid (color_manager dm) ->
  let dm' := run_all (AddMember <$> names) dm in
  (forall k n, names !! k = Some n ->
     exists c,
       family_members dm' !! n = Some {| schedules := []; color := c |}
       /\ ColorManager.CHART_COLORS
            !! ((ColorManager.current_color_index (color_manager dm) + k)
                  mod length ColorManager.CHART_COLORS)%nat = Some c)
  /\ (forall n, n ∉ names -> family_members dm' !! n = family_members dm !! n).
Proof.
  induction names as [|name names IH]; intros dm Hnd Hfresh Hv dm'.
  - split; [intros k n Hk; by rewrite lookup_nil in Hk | done].
  - apply NoDup_cons in Hnd as [Hname Hnd].
    destruct (add_member_run name dm) as (c & Hc & Hfm & Hcm & Hv1);
      [apply Hfresh, list_elem_of_here | done |].
    set (dm1 := (run (AddMember name) dm).2) in *.
    destruct (IH dm1 Hnd) as [Hin Hout]; [| done |].
    { intros n Hn. rewrite Hfm, lookup_insert_ne by (intros ->; done).
      by apply Hfresh, list_elem_of_further. }
    subst dm'. cbn [fmap list_fmap run_all]. fold dm1. split.
    + intros [|k] n Hk.
      * injection Hk as <-. exists c. split.
        -- rewrite Hout by done. rewrite Hfm. apply lookup_insert_eq.
        -- rewrite Nat.add_0_r, Nat.mod_small by done. exact Hc.
      * destruct (Hin k n Hk) as (c' & Hn & Hc'). exists c'. split; [done|].
        rewrite Hcm, Nat.Div0.add_mod_idemp_l in Hc'.
        by replace (ColorManager.current_color_index (color_manager dm) + S k)%nat
          with (ColorManager.current_color_index (color_manager dm) + 1 + k)%nat by lia.
    + intros n Hn. apply not_elem_of_cons in Hn as [Hne Hn].
      rewrite Hout by done. rewrite Hfm. by apply lookup_insert_ne.
Qed.

(** X14.  Members added one after the other to a new store get the
    palette colours in palette order, the member at position [k] the
    colour at [k mod 10]: the first ten members have distinct colours and
    the eleventh shares the colour of the first. *)
Theorem new_members_get_palette_order names :
  NoDup names ->
  forall k n, names !! k = Some n ->
    exists c,
      family_members (run_all (AddMember <$> names) init) !! n
      = Some {| schedules := []; color := c |}
      /\ ColorManager.CHART_COLORS !! (k mod length ColorManager.CHART_COLORS)%nat
         = Some c.
Proof.
  intros Hnd k n Hk.
  destruct (add_members_from names init Hnd) as [Hin _].
  - intros n' _. cbn. apply lookup_empty.
  - unfold ColorManager.valid. cbn. lia.
  - exact (Hin k n Hk).
Qed.

Lemma new_members_get_palette_order_witness :
  exists c,
    family_members (run_all (AddMember <$> ["Ann"; "Bob"; "Cy"]%string) init)
      !! "Cy"%string
    = Some {| schedules := []; color := c |}
    /\ ColorManager.CHART_COLORS !! (2 mod length ColorManager.CHART_COLORS)%nat
       = Some c.
Proof.
  apply (new_members_get_palette_order ["Ann"; "Bob"; "Cy"]%string);
    [| reflexivity].
  apply (bool_decide_unpack _). vm_compute. exact I.
Defined.

End StoreProperties.

(** * Properties of loading *)

Section LoaderProperties.

Import DataManager Loader.

Implicit Types (items : list (string * entry)) (fm : gmap string member)
  (cm : ColorManager.t) (used : gset string).

(** The loop condition of the re-seeding scan holds at every position the
    scan has passed. *)
Lemma scan_passed used fuel : forall i j,
  (i <= j < ColorManager.scan fuel used i)%nat ->
  ColorManager.scan_cond used j = true.
Proof.
  induction fuel as [|fuel IH]; intros i j Hj; cbn [ColorManager.scan] in Hj.
  - lia.
  - destruct (ColorManager.scan_cond used i) eqn:Hc; [|lia].
    destruct (decide (j = i)) as [->|]; [done|]. apply (IH (S i)). lia.
Qed.

(** After re-seeding, the colour handed out next is not in [used],
    provided some palette colour is not. *)
Lemma reseed_next_unused used cm c0 :
  c0 ∈ ColorManager.CHART_COLORS -> c0 ∉ used ->
  exists c cm',
    ColorManager.get_next_color
      (ColorManager.set_current_color_index_based_on_used_colors used cm)
    = Some (c, cm')
    /\ c ∉ used.
Proof.
  intros [k Hk]%list_elem_of_lookup Hc0.
  pose proof (lookup_lt_Some _ _ _ Hk) as Hlt.
  unfold ColorManager.set_current_color_index_based_on_used_colors.
  set (r := ColorManager.scan (length ColorManager.CHART_COLORS) used 0).
  assert (Hr : (r <= k)%nat).
  { destruct (Nat.le_gt_cases r k) as [|Hgt]; [done|].
    assert (Hcond : ColorManager.scan_cond used k = true).
    { apply (scan_passed used (length ColorManager.CHART_COLORS) 0%nat).
      fold r. lia. }
    rewrite (scan_cond_lookup _ _ _ Hk) in Hcond.
    by apply bool_decide_eq_true in Hcond. }
  destruct (decide (length ColorManager.CHART_COLORS <= r)%nat); [lia|].
  destruct (lookup_lt_is_Some_2 ColorManager.CHART_COLORS r) as [c Hc]; [lia|].
  exists c. eexists. unfold ColorManager.get_next_color.
  cbn [ColorManager.current_color_index]. rewrite Hc. split; [done|].
  pose proof (scan_exits used) as Hex. fold r in Hex.
  rewrite (scan_cond_lookup _ _ _ Hc) in Hex.
  by apply bool_decide_eq_false in Hex.
Qed.

(** When every entry carries a palette colour the loop allocates nothing
    and builds the dictionary of the entries. *)
Lemma load_members_kept items : forall fm cm used,
  Forall (fun p => exists c, entry_color p.2 = Some c
                             /\ c ∈ ColorManager.CHART_COLORS) items ->
  exists used',
    load_members items fm cm used
    = (Some (list_to_map (reverse (prod_map id as_member <$> items)) ∪ fm, used'), cm).
Proof.
  induction items as [|[name data] items IH]; intros fm cm used Hall.
  - eexists. cbn. by rewrite (left_id_L ∅ (∪)).
  - apply Forall_cons in Hall as [(c & Hc & Hin) Hall]. cbn in Hc.
    cbn [load_members]. rewrite Hc.
    rewrite bool_decide_eq_true_2 by done. cbn [negb].
    destruct (IH (<[name := {| schedules := default [] (entry_schedules data);
                               color := c |}]> fm) cm ({[c]} ∪ used) Hall)
      as [used' ->].
    exists used'. do 3 f_equal.
    cbn [fmap list_fmap]. rewrite reverse_cons, list_to_map_app.
    rewrite <- (assoc_L (∪)). f_equal.
    cbn. rewrite insert_empty, <- insert_union_singleton_l.
    unfold as_member. by rewrite Hc.
Qed.

(** X15.  Loading the file that [save_data] wrote gives back the
    dictionary of members as it was saved, provided every member's colour
    is a palette colour (as it is for every member the store creates). *)
Theorem load_written_round_trip fm dm :
  (forall n m, fm !! n = Some m -> color m ∈ ColorManager.CHART_COLORS) ->
  family_members (load_data (Parsed (written fm)) dm) = fm.
Proof.
  intros Hcol. unfold load_data.
  destruct (load_members_kept (written fm) ∅ (color_manager dm) ∅) as [used' ->].
  { unfold written. apply Forall_fmap, Forall_forall. intros [n m] Hnm. cbn.
    exists (color m). split; [done|]. eapply Hcol. by apply elem_of_map_to_list. }
  cbn [family_members]. rewrite (right_id_L ∅ (∪)).
  assert (Heq : prod_map id as_member <$> written fm = map_to_list fm).
  { unfold written. rewrite <- list_fmap_compose.
    rewrite <- (list_fmap_id (map_to_list fm)) at 2.
    apply list_fmap_ext. intros _ [n [l c]] _. done. }
  rewrite Heq.
  rewrite (list_to_map_proper (reverse (map_to_list fm)) (map_to_list fm)).
  - apply list_to_map_to_list.
  - rewrite fmap_reverse, reverse_Permutation. apply NoDup_fst_map_to_list.
  - apply reverse_Permutation.
Qed.

Lemma load_written_round_trip_witness :
  family_members
    (load_data (Parsed (written (family_members (Examples.alice [(9, 17)])))) init)
  = family_members (Examples.alice [(9, 17)]).
Proof.
  apply load_written_round_trip. intros n m.
  unfold Examples.alice. cbn [family_members].
  intros [<- <-]%lookup_singleton_Some. cbn.
  apply (bool_decide_unpack _). vm_compute. exact I.
Defined.

(** The loop with a valid allocator: it never raises, keeps the allocator
    valid, leaves only palette colours in the dictionary, and records the
    colour of every member in [used]. *)
Lemma load_members_palette items : forall fm cm used,
  ColorManager.valid cm ->
  (forall n m, fm !! n = Some m ->
     color m ∈ ColorManager.CHART_COLORS /\ color m ∈ used) ->
  exists fm' used' cm',
    load_members items fm cm used = (Some (fm', used'), cm')
    /\ ColorManager.valid cm'
    /\ (forall n m, fm' !! n = Some m ->
          color m ∈ ColorManager.CHART_COLORS /\ color m ∈ used').
Proof.
  induction items as [|[name data] items IH]; intros fm cm used Hv Hfm.
  - do 3 eexists. split; [reflexivity | done].
  - cbn [load_members].
    assert (Hstep : exists c cm',
      (if match entry_color data with
          | None => true
          | Some color => negb (bool_decide (color ∈ ColorManager.CHART_COLORS))
          end
       then ColorManager.get_next_color cm
       else match entry_color data with
            | Some color => Some (color, cm)
            | None => None
            end) = Some (c, cm')
      /\ ColorManager.valid cm' /\ c ∈ ColorManager.CHART_COLORS).
    { destruct cm as [i]. destruct (get_next_color_valid i Hv) as (c & Hi & Hc).
      destruct (entry_color data) as [c0|].
      - destruct (bool_decide_reflect (c0 ∈ ColorManager.CHART_COLORS)); cbn [negb].
        + by exists c0, (ColorManager.mk i).
        + exists c. eexists. split; [exact Hc|]. split.
          * by eapply get_next_color_keeps_valid.
          * by eapply list_elem_of_lookup_2.
      - exists c. eexists. split; [exact Hc|]. split.
        + by eapply get_next_color_keeps_valid.
        + by eapply list_elem_of_lookup_2. }
    destruct Hstep as (c & cm' & -> & Hv' & Hc).
    apply IH; [done|]. intros n m.
    destruct (decide (name = n)) as [->|Hne].
    + rewrite lookup_insert_eq. intros [= <-]. cbn. split; [done|].
      apply elem_of_union. left. by apply elem_of_singleton.
    + rewrite lookup_insert_ne by done. intros Hn.
      destruct (Hfm n m Hn). split; [done|]. apply elem_of_union. by right.
Qed.



(** X17.  After loading, the colour the next new member will get is used
    by no loaded member, unless the loaded members use up the whole
    palette. *)
Theorem startup_next_colour_unused items c0 :
  c0 ∈ ColorManager.CHART_COLORS ->
  NoDup items.*1 ->
  (forall n m, family_members (startup (Parsed items)) !! n = Some m -> color m <> c0) ->
  exists c cm',
    ColorManager.get_next_color (color_manager (startup (Parsed items))) = Some (c, cm')
    /\ forall n m, family_members (startup (Parsed items)) !! n = Some m -> color m <> c.
Proof.
  intros Hc0 Hnd Hfree.
  assert (Hinit : ColorManager.valid ColorManager.init)
    by (unfold ColorManager.valid; cbn; lia).
  assert (Hgen : forall items fm cm used,
    NoDup items.*1 ->
    (forall n, n ∈ items.*1 -> fm !! n = None) ->
    ColorManager.valid cm ->
    (forall c, c ∈ used -> exists n m, fm !! n = Some m /\ color m = c) ->
    exists fm' used' cm',
      load_members items fm cm used = (Some (fm', used'), cm')
      /\ (forall c, c ∈ used' -> exists n m, fm' !! n = Some m /\ color m = c)).
  { clear. induction items as [|[name data] items IH];
      intros fm cm used Hnd Hfresh Hv Hused.
    - do 3 eexists. split; [reflexivity | done].
    - cbn in Hnd. apply NoDup_cons in Hnd as [Hname Hnd].
      cbn [load_members].
      assert (Hstep : exists c cm',
        (if match entry_color data with
            | None => true
            | Some color => negb (bool_decide (color ∈ ColorManager.CHART_COLORS))
            end
         then ColorManager.get_next_color cm
         else match entry_color data with
              | Some color => Some (color, cm)
              | None => None
              end) = Some (c, cm') /\ ColorManager.valid cm').
      { destruct cm as [i]. destruct (get_next_color_valid i Hv) as (c & Hi & Hc).
        destruct (entry_color data) as [c1|].
        - destruct (bool_decide (c1 ∈ ColorManager.CHART_COLORS)); cbn [negb].
          + by exists c1, (ColorManager.mk i).
          + exists c. eexists. split; [exact Hc|].
            by eapply get_next_color_keeps_valid.
        - exists c. eexists. split; [exact Hc|].
          by eapply get_next_color_keeps_valid. }
      destruct Hstep as (c & cm' & -> & Hv').
      apply IH; [done | | done |].
      + intros n Hn. rewrite lookup_insert_ne by (intros ->; done).
        apply Hfresh. cbn. by apply list_elem_of_further.
      + intros c' [->%elem_of_singleton|Hc']%elem_of_union.
        * do 2 eexists. by rewrite lookup_insert_eq.
        * destruct (Hused c' Hc') as (n & m & Hn & Hm). exists n, m.
          split; [|done]. rewrite lookup_insert_ne; [done|].
          intros <-. rewrite Hfresh in Hn; [done|]. cbn. apply list_elem_of_here. }
  destruct (load_members_palette items ∅ ColorManager.init ∅ Hinit)
    as (fm' & used' & cm' & Hload & _ & Hcol).
  { intros n m. by rewrite lookup_empty. }
  destruct (Hgen items ∅ ColorManager.init ∅ Hnd) as (fm2 & used2 & cm2 & Hload2 & Hused);
    [intros; apply lookup_empty | done | intros c Hc; by apply elem_of_empty in Hc |].
  rewrite Hload in Hload2. injection Hload2 as <- <- <-.
  revert Hfree. unfold startup, load_data.
  change (color_manager init) with ColorManager.init.
  rewrite Hload. cbn. intros Hfree.
  destruct (reseed_next_unused used' cm' c0 Hc0) as (c & cm'' & Hnext & Hc).
  { intros Hin. destruct (Hused c0 Hin) as (n & m & Hn & Hm). by eapply Hfree. }
  exists c, cm''. split; [done|]. intros n m Hn Heq.
  destruct (Hcol n m Hn) as [_ Hin]. by rewrite Heq in Hin.
Qed.

Lemma startup_next_colour_unused_witness :
  exists c cm',
    ColorManager.get_next_color
      (color_manager
         (startup (Parsed [("Ann"%string,
                            {| entry_schedules := Some [(9, 17)];
                               entry_color := Some "skyblue"%string |})])))
    = Some (c, cm')
    /\ forall n m,
         family_members
           (startup (Parsed [("Ann"%string,
                              {| entry_schedules := Some [(9, 17)];
                                 entry_color := Some "skyblue"%string |})]))
           !! n = Some m ->
         color m <> c.
Proof.
  apply (startup_next_colour_unused _ "plum"%string).
  - apply (bool_decide_unpack _). vm_compute. exact I.
  - apply (bool_decide_unpack _). vm_compute. exact I.
  - intros n m Hn.
    assert (Hfm :
      family_members
        (startup (Parsed [("Ann"%string,
                           {| entry_schedules := Some [(9, 17)];
                              entry_color := Some "skyblue"%string |})]))
      = {[ "Ann"%string := {| schedules := [(9, 17)]; color := "skyblue" |} ]})
      by reflexivity.
    rewrite Hfm in Hn. apply lookup_singleton_Some in Hn as [_ <-]. discriminate.
Defined.

End LoaderProperties.

(** * Properties of the forms and of the commit step *)

Section FormProperties.

Import PyList DataManager Forms.

Implicit Types (dm : DataManager.t) (m : member) (name : string).

Lemma valid_hours_in_day s e : valid_hours s e = true <-> in_day (s, e).
Proof.
  unfold valid_hours, in_day. cbn.
  rewrite !andb_true_iff, !Z.leb_le, Z.ltb_lt. lia.
Qed.

Lemma familyschedule_test_in_day s e :
  (negb ((0 <=? s) && (s <=? 23)) || negb ((1 <=? e) && (e <=? 24)) = false
   /\ (s >=? e) = false)
  <-> in_day (s, e).
Proof.
  unfold in_day. cbn.
  rewrite orb_false_iff, !negb_false_iff, !andb_true_iff, !Z.leb_le, Z.geb_leb,
    Z.leb_gt. lia.
Qed.

(** X18.  The three forms that take hours from the user (the schedule form
    of the main window and the edit dialogs of the two canvases) turn away
    exactly the same inputs: a warning is shown, and the store is not
    called, precisely when the hours do not satisfy
    [0 <= start < end <= 24]. *)
Theorem forms_warn_exactly_outside_day name old i s e dm :
  ((set_schedule_gui (Some name) (Some s) (Some e) dm).1 = Warned <-> ~ in_day (s, e))
  /\ ((gui_on_ok name old i (Some s) (Some e) dm).1 = Warned <-> ~ in_day (s, e))
  /\ ((familyschedule_on_ok name old i (Some s) (Some e) dm).1 = Warned
      <-> ~ in_day (s, e)).
Proof.
  pose proof (valid_hours_in_day s e) as Hv.
  pose proof (familyschedule_test_in_day s e) as Hf.
  unfold set_schedule_gui, gui_on_ok, familyschedule_on_ok. split_and!.
  - destruct (valid_hours s e); cbn.
    + destruct (add_schedule name s e dm). cbn. intuition discriminate.
    + intuition discriminate.
  - destruct (valid_hours s e); cbn.
    + destruct (decide ((s, e) = old)); cbn; [intuition discriminate|].
      destruct (update_schedule _ _ _ _ _). cbn. intuition discriminate.
    + intuition discriminate.
  - destruct (negb ((0 <=? s) && (s <=? 23)) || negb ((1 <=? e) && (e <=? 24)));
      cbn; [intuition discriminate|].
    destruct (s >=? e); cbn; [intuition discriminate|].
    destruct (update_schedule _ _ _ _ _). cbn. intuition discriminate.
Qed.

Lemma forms_warn_exactly_outside_day_witness :
  (set_schedule_gui (Some "Alice"%string) (Some 17) (Some 9) (Examples.alice [])).1
  = Warned.
Proof.
  apply (proj1 (forms_warn_exactly_outside_day "Alice" (0, 1) 0 17 9
                  (Examples.alice []))).
  unfold in_day. cbn. lia.
Defined.

Lemma in_day_insert name l c dm dm' :
  all_in_day dm -> Forall in_day l ->
  family_members dm' = <[name := {| schedules := l; color := c |}]> (family_members dm) ->
  all_in_day dm'.
Proof.
  intros Hdm Hl Heq n m'. rewrite Heq.
  destruct (decide (name = n)) as [->|Hne].
  - rewrite lookup_insert_eq. by intros [= <-].
  - rewrite lookup_insert_ne by done. apply Hdm.
Qed.

Lemma add_schedule_keeps_in_day name s e dm :
  all_in_day dm -> in_day (s, e) -> all_in_day (add_schedule name s e dm).2.
Proof.
  intros Hdm Hse. unfold add_schedule.
  destruct (family_members dm !! name) as [m|] eqn:Hm; [|done].
  eapply in_day_insert; [done | | reflexivity].
  rewrite sort_perm. apply Forall_app. split; [by eapply Hdm | by constructor].
Qed.

Lemma update_schedule_keeps_in_day name old i new dm :
  all_in_day dm -> in_day new -> all_in_day (update_schedule name old i new dm).2.
Proof.
  intros Hdm Hnew. unfold update_schedule.
  destruct (family_members dm !! name) as [m|] eqn:Hm; [|done].
  destruct (remove_at_or_by_value _ _ _) as [e|l] eqn:Hr; [done|].
  apply remove_at_inr in Hr as [_ Hsub].
  eapply in_day_insert; [done | | reflexivity].
  rewrite sort_perm. apply Forall_app. split; [|by constructor].
  pose proof (Hdm name m Hm) as Hall.
  rewrite Forall_forall in Hall |- *. intros z Hz.
  apply Hall. by eapply elem_of_sublist.
Qed.

Lemma delete_schedule_keeps_in_day name x i dm :
  all_in_day dm -> all_in_day (delete_schedule name x i dm).2.
Proof.
  intros Hdm. unfold delete_schedule.
  destruct (family_members dm !! name) as [m|] eqn:Hm; [|done].
  destruct (remove_at_or_by_value _ _ _) as [e|l] eqn:Hr; [done|].
  apply remove_at_inr in Hr as [_ Hsub].
  eapply in_day_insert; [done | | reflexivity].
  pose proof (Hdm name m Hm) as Hall.
  rewrite Forall_forall in Hall |- *. intros z Hz.
  apply Hall. by eapply elem_of_sublist.
Qed.

(** X19.  If every stored schedule lies inside the day with its start
    before its end, it still does after any use of the forms: the schedule
    form, either edit dialog, or a deletion from the chart, whatever is
    typed or selected. *)
Theorem forms_keep_schedules_in_day dm :
  all_in_day dm ->
  (forall selection s e, all_in_day (set_schedule_gui selection s e dm).2)
  /\ (forall name old i s e, all_in_day (gui_on_ok name old i s e dm).2)
  /\ (forall name old i s e, all_in_day (familyschedule_on_ok name old i s e dm).2)
  /\ (forall confirmed name x i,
        all_in_day (delete_schedule_from_chart confirmed name x i dm).2).
Proof.
  intros Hdm. split_and!.
  - intros [name|] [s|] [e|]; cbn; try done.
    destruct (valid_hours s e) eqn:Hv; cbn; [|done].
    apply valid_hours_in_day in Hv.
    pose proof (add_schedule_keeps_in_day name s e dm Hdm Hv).
    by destruct (add_schedule name s e dm).
  - intros name old i [s|] [e|]; cbn; try done.
    destruct (valid_hours s e) eqn:Hv; cbn; [|done].
    apply valid_hours_in_day in Hv.
    destruct (decide _); [done|].
    pose proof (update_schedule_keeps_in_day name old i (s, e) dm Hdm Hv).
    by destruct (update_schedule _ _ _ _ _).
  - intros name old i [s|] [e|]; cbn; try done.
    destruct (negb ((0 <=? s) && (s <=? 23)) || negb ((1 <=? e) && (e <=? 24)))
      eqn:H1; [done|].
    destruct (s >=? e) eqn:H2; [done|].
    assert (Hv : in_day (s, e)) by (by apply familyschedule_test_in_day).
    pose proof (update_schedule_keeps_in_day name old i (s, e) dm Hdm Hv).
    by destruct (update_schedule _ _ _ _ _).
  - intros [|] name x i; cbn; [|done].
    pose proof (delete_schedule_keeps_in_day name x i dm Hdm).
    by destruct (delete_schedule _ _ _ _).
Qed.

Lemma forms_keep_schedules_in_day_witness :
  all_in_day
    (set_schedule_gui (Some "Alice"%string) (Some 8) (Some 12)
       (Examples.alice [(9, 17)])).2.
Proof.
  apply (proj1 (forms_keep_schedules_in_day (Examples.alice [(9, 17)])
                  ltac:(intros n m; unfold Examples.alice; cbn [family_members];
                        intros [<- <-]%lookup_singleton_Some; cbn;
                        repeat constructor; cbn; lia))).
Defined.

(** X20.  Confirming the edit dialog without changing the hours: the
    dialog of gui/chart_canvas.py notices and does not call the store; the
    dialog of FamilyscheduleApp calls [update_schedule], which on a sorted
    list puts back what it removed, so the members are unchanged but the
    data file is written once more. *)
Theorem edit_without_change name m dm old i :
  family_members dm !! name = Some m ->
  StronglySorted tuple_le (schedules m) ->
  old ∈ schedules m -> in_day old ->
  - Z.of_nat (length (schedules m)) <= i ->
  gui_on_ok name old i (Some old.1) (Some old.2) dm = (Unchanged, dm)
  /\ exists dm',
       familyschedule_on_ok name old i (Some old.1) (Some old.2) dm
       = (Called Success, dm')
       /\ family_members dm' = family_members dm
       /\ saved dm' = family_members dm :: saved dm.
Proof.
  intros Hm Hs Hin Hday Hi. destruct old as [s e]. cbn [fst snd]. split.
  - unfold gui_on_ok. apply valid_hours_in_day in Hday as ->. cbn.
    by destruct (decide _).
  - unfold familyschedule_on_ok.
    apply familyschedule_test_in_day in Hday as [-> ->].
    unfold update_schedule. rewrite Hm.
    destruct (remove_at_or_by_value (schedules m) (s, e) i) as [e0|l] eqn:Hr.
    { apply remove_at_inl in Hr as [(_ & ? & _)|(_ & ?)]; [done | lia]. }
    apply remove_at_inr in Hr as [Hp _].
    assert (Hl : sort (l ++ [(s, e)]) = schedules m).
    { apply lex_sorted_unique; [apply sort_sorted | done |].
      by rewrite sort_perm, <- Permutation_cons_append, Hp. }
    eexists. split; [reflexivity|]. cbn. rewrite Hl.
    assert (Hid : <[name := {| schedules := schedules m; color := color m |}]>
                    (family_members dm) = family_members dm).
    { apply insert_id. rewrite Hm. by destruct m. }
    by rewrite Hid.
Qed.

Lemma edit_without_change_witness :
  gui_on_ok "Alice" (9, 17) 0 (Some 9) (Some 17) (Examples.alice [(9, 17)])
  = (Unchanged, Examples.alice [(9, 17)])
  /\ exists dm',
       familyschedule_on_ok "Alice" (9, 17) 0 (Some 9) (Some 17)
         (Examples.alice [(9, 17)])
       = (Called Success, dm')
       /\ family_members dm' = family_members (Examples.alice [(9, 17)])
       /\ saved dm' = family_members (Examples.alice [(9, 17)])
                      :: saved (Examples.alice [(9, 17)]).
Proof.
  apply (edit_without_change "Alice"
           {| schedules := [(9, 17)]; color := "skyblue" |}
           (Examples.alice [(9, 17)]) (9, 17) 0);
    [reflexivity | repeat constructor | apply list_elem_of_here
     | unfold in_day; cbn; lia | cbn; lia].
Defined.

End FormProperties.

Section CommitProperties.

Import PyList DataManager Forms.

(** [round] leaves an integer-valued float alone. *)
Lemma py_round_integer (n : Z) : py_round (inject_Z n) = n.
Proof.
  unfold py_round. rewrite Qfloor_Z.
  destruct (Qcompare (inject_Z n - inject_Z n) (1 # 2)) eqn:Hc.
  - apply Qeq_alt in Hc. lra.
  - done.
  - apply Qgt_alt in Hc. lra.
Qed.

(** X21.  The schedule committed by [end_drag] of FamilyscheduleApp lies
    inside the day, start before end, exactly when the rounded start hour
    is at most 23; the end hour plays no part. *)
Theorem familyschedule_committed_in_day_iff (new_start_hour new_end_hour : Q) :
  in_day (FamilyscheduleApp.committed new_start_hour new_end_hour)
  <-> py_round new_start_hour <= 23.
Proof.
  unfold in_day, FamilyscheduleApp.committed. cbv zeta.
  destruct (Z.leb_spec (Z.min 24 (py_round new_end_hour))
              (Z.max 0 (py_round new_start_hour))); cbn; lia.
Qed.

Lemma familyschedule_committed_in_day_iff_witness :
  in_day (FamilyscheduleApp.committed (86 # 10) (172 # 10)).
Proof.
  apply familyschedule_committed_in_day_iff. vm_compute. discriminate.
Defined.

(** X22.  The schedule committed by [end_drag] of gui/chart_canvas.py lies
    inside the day, start before end, exactly when the clamped start is
    before the clamped end, or the repair can make room: on the left for a
    left resize (clamped end at least 1), on the right otherwise (clamped
    start at most 23). *)
Theorem gui_committed_in_day_iff (mode : drag_mode) (start_float end_float : Q) :
  let s0 := Z.max 0 (py_round start_float) in
  let e0 := Z.min 24 (py_round end_float) in
  in_day (Gui.committed mode start_float end_float)
  <-> s0 < e0
      \/ (mode = resize_left /\ 1 <= e0)
      \/ (mode <> resize_left /\ s0 <= 23).
Proof.
  unfold in_day, Gui.committed. cbv zeta.
  destruct (Z.geb_spec (Z.max 0 (py_round start_float))
              (Z.min 24 (py_round end_float)));
    destruct mode; cbn; intuition (try discriminate; try lia).
Qed.

Lemma gui_committed_in_day_iff_witness :
  in_day (Gui.committed resize_left 30 12).
Proof.
  apply gui_committed_in_day_iff. right. left. split; [reflexivity|].
  vm_compute. discriminate.
Defined.

(** X23.  A move drag of a schedule that lies inside the day cannot
    corrupt it: every candidate drawn during the move lies inside the day
    and keeps the duration, and releasing the bar at the candidate's hours
    commits exactly the candidate. *)
Theorem move_then_release (new_start_hour_float : Q) (original : Z * Z) :
  in_day original ->
  let c := FamilyscheduleApp.drag_motion_move new_start_hour_float original in
  in_day c
  /\ c.2 - c.1 = original.2 - original.1
  /\ FamilyscheduleApp.committed (inject_Z c.1) (inject_Z c.2) = c.
Proof.
  intros [Hse He]. cbv zeta.
  unfold FamilyscheduleApp.committed, FamilyscheduleApp.drag_motion_move, in_day.
  rewrite !py_round_integer. cbv zeta.
  set (start := Z.max 0 (FamilyscheduleApp.snapped new_start_hour_float)).
  assert (0 <= start) by (subst start; lia).
  destruct (Z.ltb_spec 24 (start + (original.2 - original.1))) as [Hover|Hfit].
  - destruct (Z.ltb_spec (24 - (original.2 - original.1)) 0); cbn [fst snd]; [lia|].
    split_and!; try lia.
    destruct (Z.leb_spec (Z.min 24 24) (Z.max 0 (24 - (original.2 - original.1))));
      [lia|]. f_equal; lia.
  - cbn [fst snd]. split_and!; try lia.
    destruct (Z.leb_spec (Z.min 24 (start + (original.2 - original.1)))
                (Z.max 0 start)); [lia|]. f_equal; lia.
Qed.

Lemma move_then_release_witness :
  let c := FamilyscheduleApp.drag_motion_move (203 # 10) (9, 17) in
  in_day c
  /\ c.2 - c.1 = (9, 17).2 - (9, 17).1
  /\ FamilyscheduleApp.committed (inject_Z c.1) (inject_Z c.2) = c.
Proof. apply move_then_release. unfold in_day. cbn. lia. Defined.

(** X24.  A drag that [drag_start] accepted ends well if the store was not
    changed in between: at release either the committed schedule is the
    captured one and the store is not called, or [update_schedule] finds
    the captured schedule at the captured index and succeeds, replacing
    exactly that position. *)
Theorem drag_on_unchanged_store_succeeds hit member_name schedule_index dm d s e :
  Capture.drag_start hit member_name schedule_index dm = Capture.Drag d ->
  let new_schedule := FamilyscheduleApp.committed s e in
  (new_schedule = FamilyscheduleApp.original_schedule d
   /\ FamilyscheduleApp.end_drag (Some d) s e dm = (None, None, dm))
  \/ (new_schedule <> FamilyscheduleApp.original_schedule d
      /\ exists m,
           family_members dm !! FamilyscheduleApp.member_name d = Some m
           /\ FamilyscheduleApp.end_drag (Some d) s e dm
              = (None, Some Success,
                 save_data
                   (set_schedules (FamilyscheduleApp.member_name d) m
                      (sort (delete (Z.to_nat (FamilyscheduleApp.original_index d))
                               (schedules m) ++ [new_schedule])) dm))).
Proof.
  unfold Capture.drag_start.
  destruct hit as [mode|]; [|done].
  destruct (Capture.truthy member_name) as [name|]; [|done].
  destruct (decide (schedule_index = -1)); [done|].
  destruct (family_members dm !! name) as [m|] eqn:Hm; [|done].
  destruct (Z.leb_spec 0 schedule_index); cbn [andb negb]; [|done].
  destruct (Z.ltb_spec schedule_index (Z.of_nat (length (schedules m))));
    cbn [negb]; [|done].
  destruct (schedules m !! Z.to_nat schedule_index) as [x|] eqn:Hx; [|done].
  intros [= <-]. cbv zeta. unfold FamilyscheduleApp.end_drag.
  cbn [FamilyscheduleApp.original_schedule FamilyscheduleApp.member_name
       FamilyscheduleApp.original_index].
  destruct (decide (FamilyscheduleApp.committed s e = x)) as [Heq|Hne];
    [by left | right].
  split; [done|]. exists m. split; [done|].
  unfold update_schedule. rewrite Hm. by rewrite remove_at_front.
Qed.

Lemma drag_on_unchanged_store_succeeds_witness :
  let new_schedule := FamilyscheduleApp.committed 10 18 in
  let d := {| FamilyscheduleApp.mode := move;
              FamilyscheduleApp.member_name := "Alice";
              FamilyscheduleApp.original_schedule := (9, 17);
              FamilyscheduleApp.original_index := 0 |} in
  (new_schedule = FamilyscheduleApp.original_schedule d
   /\ FamilyscheduleApp.end_drag (Some d) 10 18 (Examples.alice [(9, 17)])
      = (None, None, Examples.alice [(9, 17)]))
  \/ (new_schedule <> FamilyscheduleApp.original_schedule d
      /\ exists m,
           family_members (Examples.alice [(9, 17)])
             !! FamilyscheduleApp.member_name d = Some m
           /\ FamilyscheduleApp.end_drag (Some d) 10 18 (Examples.alice [(9, 17)])
              = (None, Some Success,
                 save_data
                   (set_schedules (FamilyscheduleApp.member_name d) m
                      (sort (delete (Z.to_nat (FamilyscheduleApp.original_index d))
                               (schedules m) ++ [new_schedule]))
                      (Examples.alice [(9, 17)])))).
Proof.
  apply (drag_on_unchanged_store_succeeds (Some move) (Some "Alice"%string) 0).
  reflexivity.
Defined.

Lemma show_context_menu_posted member_name schedule_index dm :
  match Capture.show_context_menu member_name schedule_index dm with
  | None => True
  | Some (name, x, i) =>
      i = schedule_index
      /\ exists m,
           family_members dm !! name = Some m
           /\ schedules m !! Z.to_nat i = Some x
           /\ delete_schedule_from_chart true name x i dm
              = (Called Success,
                 save_data (set_schedules name m (delete (Z.to_nat i) (schedules m)) dm))
  end.
Proof.
  unfold Capture.show_context_menu.
  destruct (Capture.truthy member_name) as [name|]; [|done].
  destruct (decide (schedule_index = -1)); [done|].
  destruct (family_members dm !! name) as [m|] eqn:Hm;
    [| cbn; by destruct (_ && _)].
  destruct (Z.leb_spec 0 schedule_index); cbn [andb]; [|done].
  destruct (Z.ltb_spec schedule_index (Z.of_nat (length (schedules m)))); [|done].
  destruct (schedules m !! Z.to_nat schedule_index) as [x|] eqn:Hx; [|done].
  split; [done|]. exists m. split_and!; [done | done |].
  unfold delete_schedule_from_chart, delete_schedule. rewrite Hm.
  by rewrite remove_at_front.
Qed.

(** X25.  When the context menu of FamilyscheduleApp is posted, the
    schedule it carries is the one stored at the index that was read, and
    confirming the deletion removes exactly that position: the bar that
    was clicked, not another bar with the same hours. *)
Theorem menu_delete_removes_clicked_bar member_name schedule_index dm name x i :
  Capture.show_context_menu member_name schedule_index dm = Some (name, x, i) ->
  i = schedule_index
  /\ exists m,
       family_members dm !! name = Some m
       /\ schedules m !! Z.to_nat i = Some x
       /\ delete_schedule_from_chart true name x i dm
          = (Called Success,
             save_data (set_schedules name m (delete (Z.to_nat i) (schedules m)) dm)).
Proof.
  intros Hmenu.
  pose proof (show_context_menu_posted member_name schedule_index dm) as H.
  by rewrite Hmenu in H.
Qed.

Lemma menu_delete_removes_clicked_bar_witness :
  2 = 2
  /\ exists m,
       family_members (Examples.alice [(1, 2); (3, 4); (1, 2)]) !! "Alice"%string
       = Some m
       /\ schedules m !! Z.to_nat 2 = Some (1, 2)
       /\ delete_schedule_from_chart true "Alice" (1, 2) 2
            (Examples.alice [(1, 2); (3, 4); (1, 2)])
          = (Called Success,
             save_data
               (set_schedules "Alice" m (delete (Z.to_nat 2) (schedules m))
                  (Examples.alice [(1, 2); (3, 4); (1, 2)]))).
Proof.
  apply (menu_delete_removes_clicked_bar (Some "Alice"%string) 2
           (Examples.alice [(1, 2); (3, 4); (1, 2)])).
  reflexivity.
Defined.

End CommitProperties.

(** * Properties of the tags *)

Section TagProperties.

Import DataManager Tags.

Implicit Types (s a b name : string) (n : Z).

(** [str] prints digits and, at most, a minus sign. *)
Lemma string_of_uint_chars d c :
  occurs c (NilEmpty.string_of_uint d) = true ->
  In c ["0"; "1"; "2"; "3"; "4"; "5"; "6"; "7"; "8"; "9"]%char.
Proof.
  induction d as [|d IH|d IH|d IH|d IH|d IH|d IH|d IH|d IH|d IH|d IH];
    cbn [NilEmpty.string_of_uint occurs]; [done|..];
    match goal with
    | |- context [Ascii.eqb ?a c] =>
        destruct (Ascii.eqb_spec a c) as [<-|_]; [cbn; tauto | exact IH]
    end.
Qed.

Lemma nilzero_string_of_uint_chars d c :
  occurs c (NilZero.string_of_uint d) = true ->
  In c ["0"; "1"; "2"; "3"; "4"; "5"; "6"; "7"; "8"; "9"]%char.
Proof.
  destruct d; try apply string_of_uint_chars.
  cbn [NilZero.string_of_uint occurs].
  destruct (Ascii.eqb_spec "0"%char c) as [<-|_]; [cbn; tauto | done].
Qed.

Lemma py_str_chars n c :
  occurs c (py_str n) = true ->
  In c ["-"; "0"; "1"; "2"; "3"; "4"; "5"; "6"; "7"; "8"; "9"]%char.
Proof.
  unfold py_str, NilZero.string_of_int.
  destruct (Z.to_int n) as [d|d].
  - intros H. right. revert H. apply nilzero_string_of_uint_chars.
  - cbn [occurs]. destruct (Ascii.eqb_spec "-"%char c) as [<-|_]; [cbn; tauto|].
    intros H. right. revert H. apply nilzero_string_of_uint_chars.
Qed.

Lemma py_str_no_underscore n : occurs "_" (py_str n) = false.
Proof.
  destruct (occurs "_" (py_str n)) eqn:H; [|done].
  apply py_str_chars in H. cbn in H. intuition discriminate.
Qed.

Lemma prefix_head_occurs c p s :
  String.prefix (String c p) s = true -> occurs c s = true.
Proof.
  destruct s as [|a s]; cbn; [done|].
  destruct (ascii_dec c a) as [<-|]; [|done]. by rewrite Ascii.eqb_refl.
Qed.

Lemma append_nil s : "" +:+ s = s.
Proof. reflexivity. Qed.

Lemma append_cons c a b : String c a +:+ b = String c (a +:+ b).
Proof. reflexivity. Qed.

Lemma startswith_append p s : startswith (p +:+ s) p = true.
Proof.
  unfold startswith. induction p as [|c p IH].
  - rewrite append_nil. by destruct s.
  - rewrite append_cons. cbn [String.prefix].
    destruct (ascii_dec c c); [exact IH | done].
Qed.

Lemma py_str_not_bar n p : String.prefix (String "b" p) (py_str n) = false.
Proof.
  destruct (String.prefix _ _) eqn:H; [|done].
  apply prefix_head_occurs, py_str_chars in H. cbn in H. intuition discriminate.
Qed.

(** [split] on a piece without underscore, and at the first underscore. *)
Lemma split_plain s : occurs "_" s = false -> split s = [s].
Proof.
  induction s as [|c s IH]; cbn; [done|].
  destruct (Ascii.eqb c "_"); [done|]. intros H. by rewrite IH.
Qed.

Lemma append_assoc a b c : a +:+ b +:+ c = (a +:+ b) +:+ c.
Proof.
  induction a as [|x a IH]; [done|]. rewrite !append_cons. by rewrite IH.
Qed.

Lemma split_at_first a b :
  occurs "_" a = false -> split (a +:+ String "_" b) = a :: split b.
Proof.
  induction a as [|c a IH].
  - by rewrite append_nil.
  - rewrite append_cons. cbn [split occurs].
    destruct (Ascii.eqb c "_"); [done|]. intros H. by rewrite IH.
Qed.

Lemma split_last a b :
  occurs "_" b = false ->
  exists l0, split (a +:+ String "_" b) = l0 ++ [b] /\ l0 <> [].
Proof.
  intros Hb. induction a as [|c a (l0 & IH & Hne)].
  - rewrite append_nil. cbn [split]. change (Ascii.eqb "_" "_") with true.
    exists [""%string]. by rewrite split_plain.
  - rewrite append_cons. cbn [split]. rewrite IH. destruct (Ascii.eqb c "_").
    + by exists (""%string :: l0).
    + destruct l0 as [|piece l0]; [done|]. by exists (String c piece :: l0).
Qed.

Lemma last_split a b :
  occurs "_" b = false -> last (split (a +:+ String "_" b)) = Some b.
Proof.
  intros Hb. destruct (split_last a b Hb) as (l0 & -> & _). apply last_snoc.
Qed.

Section WithInt.

Variable int : string -> option Z.
Hypothesis int_str : forall n, int (py_str n) = Some n.
Variable gettags : Z -> list string.

Lemma read_bar_tags name i r :
  read_tags int gettags (bar_tags name i) r
  = Some {| member_name := split name !! 0%nat; schedule_index := i;
            is_handle_left := is_handle_left r;
            is_handle_right := is_handle_right r; is_bar := true |}.
Proof.
  unfold bar_tags. cbn [read_tags].
  change (startswith ("schedule_bar_" +:+ name +:+ "_" +:+ py_str i) "member_")
    with false.
  rewrite (startswith_append "schedule_bar_").
  assert (Hlast : last (split ("schedule_bar_" +:+ name +:+ "_" +:+ py_str i))
                  = Some (py_str i)).
  { change ("schedule_bar_" +:+ name +:+ "_" +:+ py_str i)
      with (("schedule_bar_" +:+ name) +:+ String "_" (py_str i)).
    apply last_split, py_str_no_underscore. }
  rewrite Hlast, int_str. cbn [default member_name schedule_index
    is_handle_left is_handle_right is_bar].
  rewrite (startswith_append "member_").
  change (startswith ("member_" +:+ name) "schedule_bar_") with false.
  change (startswith ("member_" +:+ name) "resize_handle_left_") with false.
  change (startswith ("member_" +:+ name) "resize_handle_right_") with false.
  change (split ("member_" +:+ name) !! 1%nat) with (split name !! 0%nat).
  cbn [member_name schedule_index is_handle_left is_handle_right is_bar].
  change (startswith ("schedule_" +:+ py_str i) "member_") with false.
  change (startswith ("schedule_" +:+ py_str i) "schedule_bar_")
    with (String.prefix "bar_" (py_str i)).
  rewrite py_str_not_bar.
  change (startswith ("schedule_" +:+ py_str i) "resize_handle_left_") with false.
  change (startswith ("schedule_" +:+ py_str i) "resize_handle_right_") with false.
  done.
Qed.




Lemma read_menu_bar_tags name i mn si :
  read_menu_tags int (bar_tags name i) mn si = (split name !! 0%nat, i).
Proof.
  unfold bar_tags. cbn [read_menu_tags].
  change (startswith ("schedule_bar_" +:+ name +:+ "_" +:+ py_str i) "member_")
    with false.
  rewrite (startswith_append "schedule_bar_").
  assert (Hlast : last (split ("schedule_bar_" +:+ name +:+ "_" +:+ py_str i))
                  = Some (py_str i)).
  { change ("schedule_bar_" +:+ name +:+ "_" +:+ py_str i)
      with (("schedule_bar_" +:+ name) +:+ String "_" (py_str i)).
    apply last_split, py_str_no_underscore. }
  rewrite Hlast, int_str. cbn [default].
  rewrite (startswith_append "member_").
  change (startswith ("member_" +:+ name) "schedule_bar_") with false.
  change (split ("member_" +:+ name) !! 1%nat) with (split name !! 0%nat).
  change (startswith ("schedule_" +:+ py_str i) "member_") with false.
  change (startswith ("schedule_" +:+ py_str i) "schedule_bar_")
    with (String.prefix "bar_" (py_str i)).
  by rewrite py_str_not_bar.
Qed.

Lemma read_tags_app tags1 : forall tags2 r,
  read_tags int gettags (tags1 ++ tags2) r
  = match read_tags int gettags tags1 r with
    | Some r' => read_tags int gettags tags2 r'
    | None => None
    end.
Proof.
  induction tags1 as [|tag tags1 IH]; intros tags2 r; [done|].
  cbn [app read_tags].
  destruct (startswith tag "schedule_bar_"); [apply IH|].
  destruct (startswith tag "resize_handle_left_").
  { destruct (read_handle _ _ _ _); [apply IH | done]. }
  destruct (startswith tag "resize_handle_right_").
  { destruct (read_handle _ _ _ _); [apply IH | done]. }
  apply IH.
Qed.

Lemma read_tags_inert tags : forall r,
  Forall (fun tag => inert tag = true) tags ->
  read_tags int gettags tags r = Some r.
Proof.
  induction tags as [|tag tags IH]; intros r Hall; [done|].
  apply Forall_cons in Hall as [Htag Hall]. unfold inert in Htag.
  rewrite !andb_true_iff, !negb_true_iff in Htag.
  destruct Htag as [[[H1 H2] H3] H4].
  cbn [read_tags]. rewrite H1, H2, H3, H4. by apply IH.
Qed.

Lemma read_menu_tags_app tags1 : forall tags2 mn si,
  read_menu_tags int (tags1 ++ tags2) mn si
  = read_menu_tags int tags2 (read_menu_tags int tags1 mn si).1
      (read_menu_tags int tags1 mn si).2.
Proof.
  induction tags1 as [|tag tags1 IH]; intros tags2 mn si; [done|].
  cbn [app read_menu_tags]. apply IH.
Qed.

Lemma read_menu_tags_inert tags : forall mn si,
  Forall (fun tag => inert tag = true) tags ->
  read_menu_tags int tags mn si = (mn, si).
Proof.
  induction tags as [|tag tags IH]; intros mn si Hall; [done|].
  apply Forall_cons in Hall as [Htag Hall]. unfold inert in Htag.
  rewrite !andb_true_iff, !negb_true_iff in Htag.
  destruct Htag as [[[H1 H2] H3] H4].
  cbn [read_menu_tags]. rewrite H1, H2. by apply IH.
Qed.



(** X27.  In FamilyscheduleApp, the member name is read back as the part
    of the name before its first underscore.  For a member named
    [p_q] the press on its bar is handled as a press on a bar of member
    [p]: if [p] is not empty and no member is called [p], [drag_start]
    raises [KeyError], and the context menu is not posted. *)
Theorem underscore_name_is_cut p q i dm extra :
  occurs "_" p = false ->
  Forall (fun tag => inert tag = true) extra ->
  drag_start int gettags (bar_tags (p +:+ "_" +:+ q) i ++ extra) dm
  = Capture.drag_start (Some move) (Some p) i dm
  /\ show_context_menu int (bar_tags (p +:+ "_" +:+ q) i ++ extra) dm
     = Capture.show_context_menu (Some p) i dm
  /\ (p <> ""%string -> i <> -1 -> family_members dm !! p = None ->
      drag_start int gettags (bar_tags (p +:+ "_" +:+ q) i ++ extra) dm
      = Capture.KeyError
      /\ show_context_menu int (bar_tags (p +:+ "_" +:+ q) i ++ extra) dm = None).
Proof.
  intros Hp Hextra.
  assert (Hsplit : split (p +:+ "_" +:+ q) !! 0%nat = Some p).
  { change (p +:+ "_" +:+ q) with (p +:+ String "_" q).
    by rewrite split_at_first. }
  assert (H1 : drag_start int gettags (bar_tags (p +:+ "_" +:+ q) i ++ extra) dm
               = Capture.drag_start (Some move) (Some p) i dm).
  { unfold drag_start.
    by rewrite read_tags_app, read_bar_tags, read_tags_inert, Hsplit. }
  assert (H2 : show_context_menu int (bar_tags (p +:+ "_" +:+ q) i ++ extra) dm
               = Capture.show_context_menu (Some p) i dm).
  { unfold show_context_menu.
    by rewrite read_menu_tags_app, read_menu_bar_tags, read_menu_tags_inert, Hsplit. }
  split_and!; [done | done |].
  intros Hne Hi Hmiss. rewrite H1, H2.
  unfold Capture.drag_start, Capture.show_context_menu, Capture.truthy.
  destruct (decide (p = ""%string)); [done|].
  destruct (decide (i = -1)); [done|]. rewrite Hmiss. split; [done|].
  cbn. by destruct (_ && _).
Qed.

(** X28.  In gui/chart_canvas.py, for a member whose name holds no
    underscore, the bar tag round-trips: what [start_drag] and
    [show_context_menu] read from the tag of a bar is the member, the
    schedule and the index the tag was written from. *)
Theorem gui_tag_round_trip name schedule j :
  occurs "_" name = false ->
  gui_parse_bar_tag int (gui_bar_tag name schedule j) = Some (name, schedule, j).
Proof.
  intros Hplain. unfold gui_parse_bar_tag, gui_bar_tag. cbv zeta.
  assert (Hparts :
    split ("schedule_bar_" +:+ name +:+ "_" +:+ py_str schedule.1
             +:+ "_" +:+ py_str schedule.2 +:+ "_" +:+ py_str j)
    = ["schedule"; "bar"; name; py_str schedule.1; py_str schedule.2; py_str j]%string).
  { change (split ("schedule_bar_" +:+ name +:+ "_" +:+ py_str schedule.1
                     +:+ "_" +:+ py_str schedule.2 +:+ "_" +:+ py_str j))
      with ("schedule"%string :: "bar"%string ::
            split (name +:+ String "_"
                     (py_str schedule.1 +:+ String "_"
                        (py_str schedule.2 +:+ String "_" (py_str j))))).
    rewrite split_at_first by done.
    rewrite split_at_first by apply py_str_no_underscore.
    rewrite split_at_first by apply py_str_no_underscore.
    by rewrite split_plain by apply py_str_no_underscore. }
  rewrite Hparts. cbn [lookup list_lookup]. rewrite !int_str. by destruct schedule.
Qed.

(** X29.  In gui/chart_canvas.py as well, a name with an underscore does
    not survive: whatever is read from the bar tag of a member named
    [p_q], the member read is [p], never [p_q]. *)
Theorem gui_underscore_name_is_cut p q schedule j result :
  occurs "_" p = false ->
  gui_parse_bar_tag int (gui_bar_tag (p +:+ "_" +:+ q) schedule j) = Some result ->
  result.1.1 = p /\ result.1.1 <> p +:+ "_" +:+ q.
Proof.
  intros Hp. unfold gui_parse_bar_tag, gui_bar_tag. cbv zeta.
  set (rest := py_str schedule.1 +:+ "_" +:+ py_str schedule.2 +:+ "_" +:+ py_str j).
  assert (Hparts :
    split ("schedule_bar_" +:+ (p +:+ "_" +:+ q) +:+ "_" +:+ rest)
    = "schedule"%string :: "bar"%string :: p :: split (q +:+ "_" +:+ rest)).
  { change (split ("schedule_bar_" +:+ (p +:+ "_" +:+ q) +:+ "_" +:+ rest))
      with ("schedule"%string :: "bar"%string ::
            split ((p +:+ String "_" q) +:+ String "_" rest)).
    rewrite <- append_assoc. rewrite append_cons.
    by rewrite split_at_first. }
  rewrite Hparts. cbn [lookup list_lookup].
  destruct (split (q +:+ "_" +:+ rest) !! 0%nat) as [p3|]; [|done].
  destruct (split (q +:+ "_" +:+ rest) !! 1%nat) as [p4|]; [|done].
  destruct (split (q +:+ "_" +:+ rest) !! 2%nat) as [p5|]; [|done].
  destruct (int p3), (int p4), (int p5); try done.
  intros [= <-]. cbn. split; [done|]. intros Heq.
  assert (Hocc : occurs "_" (p +:+ "_" +:+ q) = true).
  { clear. induction p as [|c p IH]; [done|].
    rewrite append_cons. cbn [occurs]. by destruct (Ascii.eqb c "_"). }
  rewrite <- Heq in Hocc. congruence.
Qed.

End WithInt.

Lemma decimal_str n : decimal (py_str n) = Some n.
Proof.
  unfold decimal, py_str. rewrite NilZero.isi.
  - cbn. by rewrite DecimalZ.of_to.
  - destruct n as [|q|q]; cbn; try done.
    intros [= H]. by apply DecimalPos.Unsigned.to_uint_nonnil in H.
  - destruct n as [|q|q]; cbn; try done.
    intros [= H]. by apply DecimalPos.Unsigned.to_uint_nonnil in H.
Qed.


Lemma underscore_name_is_cut_witness :
  drag_start decimal (fun _ => [])
    (bar_tags ("Mary" +:+ "_" +:+ "Ann") 0 ++ ["current"%string])
    (Examples.alice [(9, 17)]) = Capture.KeyError
  /\ show_context_menu decimal
       (bar_tags ("Mary" +:+ "_" +:+ "Ann") 0 ++ ["current"%string])
       (Examples.alice [(9, 17)]) = None.
Proof.
  apply (underscore_name_is_cut decimal decimal_str (fun _ => []) "Mary" "Ann" 0
           (Examples.alice [(9, 17)]) ["current"%string]);
    [reflexivity | repeat constructor | discriminate | discriminate | reflexivity].
Defined.

Lemma gui_tag_round_trip_witness :
  gui_parse_bar_tag decimal (gui_bar_tag "Alice" (9, 17) 0)
  = Some ("Alice"%string, (9, 17), 0).
Proof. apply (gui_tag_round_trip decimal decimal_str). reflexivity. Defined.

Lemma gui_underscore_name_is_cut_witness :
  ("A"%string, (9, 17), -2).1.1 = "A"%string
  /\ ("A"%string, (9, 17), -2).1.1 <> ("A" +:+ "_" +:+ "9_17_-2")%string.
Proof.
  apply (gui_underscore_name_is_cut decimal "A" "9_17_-2" (9, 17) 0);
    reflexivity.
Defined.

End TagProperties.
